(** * 0g-Storage-test: the split / verify / merge pipeline of main.go

    A shallow embedding of [src/main.go].  The program works on files, so
    the embedding threads an explicit file-system state through every
    operation; Go's [(value, error)] returns become [result], [log.Fatal]
    becomes the [Exit] outcome (which skips deferred calls), and the
    storage SDK is an environment record of oracles. *)

From Stdlib Require Import ZArith Lia.
From Stdlib Require Import Strings.Byte.
From stdpp Require Import gmap strings list pretty.

(** ** Data model *)

Abbreviation byte := Byte.byte.

(** A path names nothing, a regular file with its bytes, or a directory
    (which can be opened, but neither read as a file nor created over). *)
Inductive node : Type :=
| File (data : list byte)
| Dir (size : nat).

(** Go [error] values that the program can observe. [nil] is [None] of
    [option error]. *)
Inductive error : Type :=
| EOF
| ENOENT (path : string)
| EISDIR (path : string)
| ENOTDIR (path : string)
| Errorf (msg : string) (cause : error)
| ErrRemote (msg : string).

Definition is_EOF (e : error) : bool :=
  match e with EOF => true | _ => false end.

(** A Go [(T, error)] pair of which exactly one side is meaningful. *)
Inductive result (A : Type) : Type :=
| Ok (a : A)
| Err (e : error).
Arguments Ok {A} a.
Arguments Err {A} e.

(** The calls that leave the process: the trace is what an observer of
    the run (strace, a mock SDK) would record. *)
Inductive event : Type :=
| EvOpen (path : string)
| EvStat (path : string)
| EvRead (path : string)
| EvCreate (path : string)
| EvWrite (path : string)
| EvWriteFile (path : string)
| EvMkdirAll (path : string)
| EvRemoveAll (path : string)
| EvCloseWeb3
| EvSelectNodes (method : string) (fullTrusted : bool)
| EvNewUploader
| EvUploadFile (path : string)
| EvNewDownloader
| EvDownload (root path : string).

Record state : Type := State {
  files : gmap string node;
  trace : list event
}.

(** How a computation ends: it returns, the process exits ([os.Exit],
    reached through [log.Fatal]), the runtime panics, or the bound that
    the model puts on a loop is exhausted. *)
Inductive outcome (A : Type) : Type :=
| Ret (a : A)
| Exit (code : Z)
| Panic (msg : string)
| OutOfFuel.
Arguments Ret {A} a.
Arguments Exit {A} code.
Arguments Panic {A} msg.
Arguments OutOfFuel {A}.

(** ** The monad of the embedding *)

Definition M (A : Type) : Type := state -> state * outcome A.

Definition ret {A} (a : A) : M A := fun s => (s, Ret a).

Definition bind {A B} (m : M A) (k : A -> M B) : M B := fun s =>
  match m s with
  | (s', Ret a) => k a s'
  | (s', Exit c) => (s', Exit c)
  | (s', Panic msg) => (s', Panic msg)
  | (s', OutOfFuel) => (s', OutOfFuel)
  end.

Notation "'let*' x ':=' m 'in' k" := (bind m (fun x => k))
  (at level 10, x pattern, m at level 100, k at level 200).
Notation "m ';;' k" := (bind m (fun _ => k))
  (at level 100, k at level 200, right associativity).

Definition emit (e : event) : M unit := fun s =>
  (State (files s) (trace s ++ [e]), Ret tt).

Definition get_files : M (gmap string node) := fun s => (s, Ret (files s)).

Definition put_files (fs : gmap string node) : M unit := fun s =>
  (State fs (trace s), Ret tt).

Definition panic {A} (msg : string) : M A := fun s => (s, Panic msg).

Definition out_of_fuel {A} : M A := fun s => (s, OutOfFuel).

(** [log.Fatal] and [log.Fatalf]: print, then [os.Exit(1)]. *)
Definition log_Fatal {A} : M A := fun s => (s, Exit 1).

(** [defer cleanup] around the rest of a function body.  Deferred calls
    run when the function returns and while a panic unwinds; [os.Exit]
    ends the process at once and runs none of them. *)
Definition with_defer {A} (cleanup : M unit) (body : M A) : M A := fun s =>
  match body s with
  | (s', Ret a) =>
      match cleanup s' with
      | (s'', Ret _) => (s'', Ret a)
      | (s'', Exit c) => (s'', Exit c)
      | (s'', Panic msg) => (s'', Panic msg)
      | (s'', OutOfFuel) => (s'', OutOfFuel)
      end
  | (s', Panic msg) => (fst (cleanup s'), Panic msg)
  | (s', Exit c) => (s', Exit c)
  | (s', OutOfFuel) => (s', OutOfFuel)
  end.

(** ** package os / io / path/filepath

    The file system is a finite map from paths to nodes.  Opening fails
    on a path that names nothing, reading fails on a directory, creating
    and writing fail on a directory; permissions, missing parent
    directories and full disks are not modelled.  A file handle reads the
    bytes that its path holds at the time of the read, so a file that is
    overwritten while it is open is seen overwritten. *)

(** An open [*os.File]: the path it was opened under and the offset of the
    next read or write.  Paths stand for inodes: the model has no links. *)
Record handle : Type := Handle { h_path : string; h_off : nat }.

Definition node_size (n : option node) : nat :=
  match n with
  | Some (File data) => length data
  | Some (Dir size) => size
  | None => 0
  end.

(** [filepath.Join] of a directory and a file name, for operands that are
    already clean (no [.], [..], doubled or trailing separators), which is
    all this program passes.  Empty operands are dropped, as in Go. *)
Definition filepath_Join (dir name : string) : string :=
  if decide (dir = "") then name
  else if decide (name = "") then dir
  else dir +:+ "/" +:+ name.

Definition os_Open (path : string) : M (result handle) :=
  emit (EvOpen path);;
  let* fs := get_files in
  match fs !! path with
  | None => ret (Err (ENOENT path))
  | Some _ => ret (Ok (Handle path 0))
  end.

Definition os_Create (path : string) : M (result handle) :=
  emit (EvCreate path);;
  let* fs := get_files in
  match fs !! path with
  | Some (Dir _) => ret (Err (EISDIR path))
  | _ => put_files (<[path := File []]> fs);; ret (Ok (Handle path 0))
  end.

Definition os_WriteFile (path : string) (data : list byte) : M (option error) :=
  emit (EvWriteFile path);;
  let* fs := get_files in
  match fs !! path with
  | Some (Dir _) => ret (Some (EISDIR path))
  | _ => put_files (<[path := File data]> fs);; ret None
  end.

(** [f.Stat().Size()] on an open file. *)
Definition file_Size (f : handle) : M nat :=
  emit (EvStat (h_path f));;
  let* fs := get_files in
  ret (node_size (fs !! h_path f)).

(** [f.Read(buffer)]: fills a prefix of the buffer and returns the buffer,
    the count, the error and the advanced file.  A zero-length buffer
    reads nothing without error; at the end of the data the error is
    [io.EOF]; a regular file otherwise delivers as much as fits. *)
Definition file_Read (f : handle) (buffer : list byte)
  : M (nat * option error * list byte * handle) :=
  emit (EvRead (h_path f));;
  let* fs := get_files in
  match fs !! h_path f with
  | None => ret (0, Some (ENOENT (h_path f)), buffer, f)
  | Some (Dir _) => ret (0, Some (EISDIR (h_path f)), buffer, f)
  | Some (File data) =>
      if decide (length buffer = 0) then ret (0, None, buffer, f)
      else if decide (length data <= h_off f) then ret (0, Some EOF, buffer, f)
      else
        let got := take (length buffer) (drop (h_off f) data) in
        ret (length got, None, got ++ drop (length got) buffer,
             Handle (h_path f) (h_off f + length got))
  end.

(** ** splitFile (main.go, lines 248-279) *)

(** [filepath.Join(outDir, fmt.Sprintf("part_%d.bin", i))] *)
Definition part_name (outDir : string) (i : nat) : string :=
  filepath_Join outDir ("part_" +:+ pretty i +:+ ".bin").

Fixpoint splitFile_loop (fuel : nat) (file : handle) (buffer : list byte)
    (outDir : string) (i : nat) (chunkPaths : list string)
  : M (result (list string)) :=
  match fuel with
  | O => out_of_fuel
  | S fuel' =>
      let* (bytesRead, err, buffer, file) := file_Read file buffer in
      match err with
      | Some e => if is_EOF e then ret (Ok chunkPaths) else ret (Err e)
      | None =>
          if decide (bytesRead = 0) then ret (Ok chunkPaths)
          else
            let chunkName := part_name outDir i in
            let* err := os_WriteFile chunkName (take bytesRead buffer) in
            match err with
            | Some e => ret (Err e)
            | None =>
                splitFile_loop fuel' file buffer outDir (S i)
                  (chunkPaths ++ [chunkName])
            end
      end
  end.

(** The loop reads at least one byte per round, so one round per source
    byte and one for the end of file bound it.  [make] panics on a
    negative length; [defer file.Close()] has no effect on the model. *)
Definition splitFile (srcPath : string) (chunkSize : Z) (outDir : string)
  : M (result (list string)) :=
  let* r := os_Open srcPath in
  match r with
  | Err e => ret (Err e)
  | Ok file =>
      if decide (chunkSize < 0)%Z then panic "makeslice: len out of range"
      else
        let buffer := replicate (Z.to_nat chunkSize) x00 in
        let* fs := get_files in
        splitFile_loop (S (node_size (fs !! srcPath))) file buffer outDir 0 []
  end.

(** ** filesEqual (main.go, lines 282-328) *)

(** The inner [for i := 0; i < n1; i++] scan: does some position below [n]
    hold different bytes in the two buffers? *)
Fixpoint buffers_differ (n : nat) (buf1 buf2 : list byte) : bool :=
  match n, buf1, buf2 with
  | S n', b1 :: rest1, b2 :: rest2 =>
      if Byte.eqb b1 b2 then buffers_differ n' rest1 rest2 else true
  | _, _, _ => false
  end.

Fixpoint filesEqual_loop (fuel : nat) (f1 f2 : handle) (buf1 buf2 : list byte)
  : M bool :=
  match fuel with
  | O => out_of_fuel
  | S fuel' =>
      let* (n1, err1, buf1, f1) := file_Read f1 buf1 in
      let* (n2, err2, buf2, f2) := file_Read f2 buf2 in
      match err1, err2 with
      | Some e1, Some e2 =>
          if is_EOF e1 && is_EOF e2 then ret true else ret false
      | Some _, None | None, Some _ => ret false
      | None, None =>
          if decide (n1 ≠ n2) then ret false
          else if buffers_differ n1 buf1 buf2 then ret false
          else filesEqual_loop fuel' f1 f2 buf1 buf2
      end
  end.

Definition filesEqual (file1 file2 : string) : M bool :=
  let* r1 := os_Open file1 in
  match r1 with
  | Err _ => ret false
  | Ok f1 =>
      let* r2 := os_Open file2 in
      match r2 with
      | Err _ => ret false
      | Ok f2 =>
          let* size1 := file_Size f1 in
          let* size2 := file_Size f2 in
          if decide (size1 ≠ size2) then ret false
          else
            let buf1 := replicate (32 * 1024) x00 in
            let buf2 := replicate (32 * 1024) x00 in
            filesEqual_loop (S size1) f1 f2 buf1 buf2
      end
  end.

(** ** mergeFiles (main.go, lines 331-355) *)

(** [f.Write(data)] at the file's offset; a gap left by a truncation is
    filled with zero bytes. *)
Definition file_Write (f : handle) (data : list byte)
  : M (nat * option error * handle) :=
  emit (EvWrite (h_path f));;
  let* fs := get_files in
  match fs !! h_path f with
  | Some (File old) =>
      let old := old ++ replicate (h_off f - length old) x00 in
      let new := take (h_off f) old ++ data
                 ++ drop (h_off f + length data) old in
      put_files (<[h_path f := File new]> fs);;
      ret (length data, None, Handle (h_path f) (h_off f + length data))
  | Some (Dir _) => ret (0, Some (EISDIR (h_path f)), f)
  | None => ret (0, Some (ENOENT (h_path f)), f)
  end.

(** [io.Copy(dst, src)]: everything from the offset of [src] to its end
    goes to [dst].  One step of the model, for [src] and [dst] that are
    different files (Go moves the bytes in pieces of 32 KiB). *)
Definition io_Copy (dst src : handle) : M (nat * option error * handle) :=
  emit (EvRead (h_path src));;
  let* fs := get_files in
  match fs !! h_path src with
  | None => ret (0, Some (ENOENT (h_path src)), dst)
  | Some (Dir _) => ret (0, Some (EISDIR (h_path src)), dst)
  | Some (File data) => file_Write dst (drop (h_off src) data)
  end.

(** The two [fmt.Errorf] wrap the error of the failed call; the message
    keeps the operation and the path. *)
Fixpoint mergeFiles_loop (outFile : handle) (filePaths : list string)
  : M (option error) :=
  match filePaths with
  | [] => ret None
  | filePath :: rest =>
      let* r := os_Open filePath in
      match r with
      | Err e => ret (Some (Errorf ("open " +:+ filePath) e))
      | Ok inFile =>
          let* (written, err, outFile) := io_Copy outFile inFile in
          match err with
          | Some e => ret (Some (Errorf ("copy " +:+ filePath) e))
          | None => mergeFiles_loop outFile rest
          end
      end
  end.

Definition mergeFiles (filePaths : list string) (outputPath : string)
  : M (option error) :=
  let* r := os_Create outputPath in
  match r with
  | Err e => ret (Some e)
  | Ok outFile => mergeFiles_loop outFile filePaths
  end.

(** ** generateRandomFile (main.go, lines 235-245) *)

(** [io.CopyN(f, rand.Reader, size)] with the bytes that the entropy
    source is going to deliver: [io.EOF] when they run short. *)
Definition io_CopyN (dst : handle) (src : list byte) (n : Z)
  : M (nat * option error * handle) :=
  let want := Z.to_nat n in
  let* (written, err, dst) := file_Write dst (take want src) in
  match err with
  | Some e => ret (written, Some e, dst)
  | None =>
      if decide (written < want) then ret (written, Some EOF, dst)
      else ret (written, None, dst)
  end.

Definition generateRandomFile (rand_Reader : list byte) (path : string)
    (size : Z) : M (option error) :=
  let* r := os_Create path in
  match r with
  | Err e => ret (Some e)
  | Ok f =>
      let* (_, err, _) := io_CopyN f rand_Reader size in
      ret err
  end.

(** ** The rest of package os that main uses *)

(** Is [path] the directory [dir] or something below it? *)
Definition under (dir path : string) : bool :=
  bool_decide (path = dir) || String.prefix (dir +:+ "/") path.

Definition os_MkdirAll (path : string) : M (option error) :=
  emit (EvMkdirAll path);;
  let* fs := get_files in
  match fs !! path with
  | None => put_files (<[path := Dir 4096]> fs);; ret None
  | Some (Dir _) => ret None
  | Some (File _) => ret (Some (ENOTDIR path))
  end.

Definition os_RemoveAll (path : string) : M unit :=
  emit (EvRemoveAll path);;
  let* fs := get_files in
  put_files (filter (fun kv => under path kv.1 = false) fs).

(** ** The storage SDK, as main sees it *)

Record SelectedNodes : Type := {
  Trusted : list string;
  Discovered : list string
}.

(** What the collaborators answer during one run.  The calls made once
    per fragment carry the index of the loop round, so that an
    environment can answer each round differently. *)
Record sdk : Type := {
  blockchain_NewWeb3 : option error;
  indexer_NewClient : option error;
  rand_Reader : list byte;
  indexer_SelectNodes : string -> bool -> result SelectedNodes;
  transfer_NewUploader : nat -> option error;
  uploader_UploadFile : nat -> string -> result (string * string);
  transfer_NewDownloader : list string -> option error;
  downloader_Download : nat -> string -> result (list byte)
}.

(** ** main (main.go, lines 36-232) *)

Definition TotalSize : Z := 1 * 1024.
Definition FragmentSize : Z := 256.
Definition workDir : string := "temp_data".

Section Main.
Variable env : sdk.

Definition SelectNodes (method : string) (fullTrusted : bool)
  : M (result SelectedNodes) :=
  emit (EvSelectNodes method fullTrusted);;
  ret (indexer_SelectNodes env method fullTrusted).

Definition NewUploader (i : nat) : M (option error) :=
  emit EvNewUploader;; ret (transfer_NewUploader env i).

Definition UploadFile (i : nat) (path : string)
  : M (result (string * string)) :=
  emit (EvUploadFile path);; ret (uploader_UploadFile env i path).

Definition NewDownloader (nodes : list string) : M (option error) :=
  emit EvNewDownloader;; ret (transfer_NewDownloader env nodes).

(** [downloader.Download(ctx, root, path, true)] stores what the network
    returns under [path]. *)
Definition Download (i : nat) (root path : string) : M (option error) :=
  emit (EvDownload root path);;
  match downloader_Download env i root with
  | Err e => ret (Some e)
  | Ok data => os_WriteFile path data
  end.

(** Lines 116-140: the four strategies, nested in the else branches. *)
Definition select_nodes : M SelectedNodes :=
  let* r := SelectNodes "" true in
  match r with
  | Ok selectedNodes => ret selectedNodes
  | Err _ =>
      let* r := SelectNodes "" false in
      match r with
      | Ok selectedNodes => ret selectedNodes
      | Err _ =>
          let* r := SelectNodes "random" true in
          match r with
          | Ok selectedNodes => ret selectedNodes
          | Err _ =>
              let* r := SelectNodes "random" false in
              match r with
              | Ok selectedNodes => ret selectedNodes
              | Err _ => log_Fatal
              end
          end
      end
  end.

(** Lines 150-174: [for i, fragPath := range fragments]. *)
Fixpoint upload_loop (i : nat) (fragments : list string)
    (rootHashes : list string) : M (list string) :=
  match fragments with
  | [] => ret rootHashes
  | fragPath :: rest =>
      let* err := NewUploader i in
      match err with
      | Some _ => upload_loop (S i) rest rootHashes
      | None =>
          let* r := UploadFile i fragPath in
          match r with
          | Err _ => upload_loop (S i) rest rootHashes
          | Ok (txHash, rootHash) =>
              upload_loop (S i) rest (rootHashes ++ [rootHash])
          end
      end
  end.

(** [filepath.Join(workDir, fmt.Sprintf("downloaded_part_%d.bin", i))] *)
Definition downloaded_name (i : nat) : string :=
  filepath_Join workDir ("downloaded_part_" +:+ pretty i +:+ ".bin").

(** Lines 188-209: [for i, root := range rootHashes]; [fragments] is the
    whole slice, indexed by [i]. *)
Fixpoint download_loop (fragments : list string) (i : nat)
    (rootHashes : list string) (downloadedFiles : list string)
  : M (list string) :=
  match rootHashes with
  | [] => ret downloadedFiles
  | root :: rest =>
      let downloadPath := downloaded_name i in
      let* err := Download i root downloadPath in
      match err with
      | Some _ => download_loop fragments (S i) rest downloadedFiles
      | None =>
          match fragments !! i with
          | None => panic "index out of range"
          | Some originalPath =>
              let* _ := filesEqual originalPath downloadPath in
              download_loop fragments (S i) rest
                (downloadedFiles ++ [downloadPath])
          end
      end
  end.

(** Lines 214-229. *)
Definition merge_stage (largeFileName : string)
    (downloadedFiles : list string) : M unit :=
  if decide (0 < length downloadedFiles) then
    let mergedPath := filepath_Join workDir "merged_1kb.bin" in
    let* err := mergeFiles downloadedFiles mergedPath in
    match err with
    | Some _ => ret tt
    | None => let* _ := filesEqual largeFileName mergedPath in ret tt
    end
  else ret tt.

(** Lines 103-231: everything after the split. *)
Definition pipeline (largeFileName : string) (fragments : list string)
  : M unit :=
  let* selectedNodes := select_nodes in
  let allNodes := Trusted selectedNodes ++ Discovered selectedNodes in
  if decide (length allNodes = 0) then log_Fatal
  else
    let* rootHashes := upload_loop 0 fragments [] in
    let* err := NewDownloader allNodes in
    match err with
    | Some _ => log_Fatal
    | None =>
        let* downloadedFiles := download_loop fragments 0 rootHashes [] in
        merge_stage largeFileName downloadedFiles
    end.

(** Lines 87-101 and on: the work directory and its deferred removal. *)
Definition run_in_workDir (totalSize fragmentSize : Z) : M unit :=
  let* _ := os_MkdirAll workDir in
  with_defer (os_RemoveAll workDir)
    (let largeFileName := filepath_Join workDir "large_data_1kb.bin" in
     let* err := generateRandomFile (rand_Reader env) largeFileName totalSize in
     match err with
     | Some _ => log_Fatal
     | None =>
         let* r := splitFile largeFileName fragmentSize workDir in
         match r with
         | Err _ => log_Fatal
         | Ok fragments => pipeline largeFileName fragments
         end
     end).

(** The body of main with the two size constants as parameters.
    [blockchain.MustNewWeb3] ends the process when the client cannot be
    made; the address check of lines 48-73 only prints. *)
Definition run (totalSize fragmentSize : Z) : M unit :=
  match blockchain_NewWeb3 env with
  | Some _ => log_Fatal
  | None =>
      with_defer (emit EvCloseWeb3)
        (match indexer_NewClient env with
         | Some _ => log_Fatal
         | None => run_in_workDir totalSize fragmentSize
         end)
  end.

Definition main : M unit := run TotalSize FragmentSize.

End Main.

(** * Vocabulary of the specification *)

(** [ceil(T / F)] on natural numbers. *)
Definition ceil_div (T F : nat) : nat := (T + F - 1) / F.

(** The [i]-th piece of [data] cut at multiples of [F]. *)
Definition chunk (F : nat) (data : list byte) (i : nat) : list byte :=
  take F (drop (i * F) data).

Definition chunks_of (F : nat) (data : list byte) : list (list byte) :=
  chunk F data <$> seq 0 (ceil_div (length data) F).

(** The bytes of the regular files that [paths] name, in order. *)
Definition contents (fs : gmap string node) (paths : list string)
  : option (list (list byte)) :=
  mapM (fun p => match fs !! p with
                 | Some (File data) => Some data
                 | _ => None
                 end) paths.

Definition is_dir (n : option node) : bool :=
  match n with Some (Dir _) => true | _ => false end.

Definition names_free (fs : gmap string node) (src outDir : string)
    (n : nat) : Prop :=
  forall j, j < n ->
    part_name outDir j <> src /\ is_dir (fs !! part_name outDir j) = false.

Definition nonempty_file (fs : gmap string node) (p : string) : Prop :=
  exists data, fs !! p = Some (File data) /\ 1 <= length data.

(** The bytes of [src] that a file positioned at [off] has not read yet. *)
Definition remaining (fs : gmap string node) (src : string) (off : nat) : nat :=
  match fs !! src with
  | Some (File data) => length data - off
  | _ => 0
  end.

(** Which errors come from the file system. *)
Fixpoint io_error (e : error) : bool :=
  match e with
  | EOF | ENOENT _ | EISDIR _ | ENOTDIR _ => true
  | Errorf _ cause => io_error cause
  | ErrRemote _ => false
  end.

Definition holds (fs : gmap string node) (p : string) (c : list byte) : Prop :=
  fs !! p = Some (File c).

Definition is_read (e : event) : bool :=
  match e with EvRead _ => true | _ => false end.

(** Number of [Read] calls in a trace. *)
Definition reads (tr : list event) : nat := length (List.filter is_read tr).

(** [m] always returns a value: no exit, no panic, no exhausted bound. *)
Definition returns {A} (m : M A) : Prop :=
  forall st, exists st' a, m st = (st', Ret a).

(** [m] only appends events that satisfy [P], however it ends. *)
Definition emits {A} (P : event -> Prop) (m : M A) : Prop :=
  forall st, exists evs, trace (m st).1 = trace st ++ evs /\ Forall P evs.

(** The events of package os and io. *)
Definition fs_event (e : event) : Prop :=
  match e with
  | EvOpen _ | EvStat _ | EvRead _ | EvCreate _ | EvWrite _ | EvWriteFile _
  | EvMkdirAll _ | EvRemoveAll _ => True
  | _ => False
  end.

(** The four [(method, fullTrusted)] combinations, in the order of the
    source. *)
Definition strategies : list (string * bool) :=
  [("", true); ("", false); ("random", true); ("random", false)].

Definition attempt (c : string * bool) : event := EvSelectNodes c.1 c.2.

Section Vocabulary.
Variable env : sdk.

Definition answer (c : string * bool) : result SelectedNodes :=
  indexer_SelectNodes env c.1 c.2.

Definition fails (c : string * bool) : Prop := exists e, answer c = Err e.

(** A linear fallback over a list of combinations: the events of the
    attempts made, and the nodes of the first attempt that succeeds. *)
Fixpoint try_in_order (l : list (string * bool))
  : list event * option SelectedNodes :=
  match l with
  | [] => ([], None)
  | c :: rest =>
      match answer c with
      | Ok nodes => ([attempt c], Some nodes)
      | Err _ => let (evs, r) := try_in_order rest in (attempt c :: evs, r)
      end
  end.

(** The root hash that round [i] obtains for [path], if both the uploader
    and the upload succeed. *)
Definition upload_result (i : nat) (path : string) : option string :=
  match transfer_NewUploader env i with
  | Some _ => None
  | None =>
      match uploader_UploadFile env i path with
      | Ok (_, rootHash) => Some rootHash
      | Err _ => None
      end
  end.

(** The root hashes of the fragments that upload, in fragment order. *)
Fixpoint uploaded (i : nat) (fragments : list string) : list string :=
  match fragments with
  | [] => []
  | path :: rest =>
      match upload_result i path with
      | Some rootHash => rootHash :: uploaded (S i) rest
      | None => uploaded (S i) rest
      end
  end.

(** The SDK calls of the upload loop: one uploader per fragment, and an
    upload if there is an uploader. *)
Fixpoint upload_events (i : nat) (fragments : list string) : list event :=
  match fragments with
  | [] => []
  | path :: rest =>
      match transfer_NewUploader env i with
      | Some _ => EvNewUploader :: upload_events (S i) rest
      | None => EvNewUploader :: EvUploadFile path :: upload_events (S i) rest
      end
  end.

End Vocabulary.

Definition is_NewUploader (e : event) : bool :=
  match e with EvNewUploader => true | _ => false end.

(** The [(root, path)] pairs of the downloads in a trace. *)
Definition downloads_of (tr : list event) : list (string * string) :=
  omap (fun e => match e with
                 | EvDownload root path => Some (root, path)
                 | _ => None
                 end) tr.

(** The paths that main gives to the source file and to the merged file. *)
Definition largeFileName : string := filepath_Join workDir "large_data_1kb.bin".
Definition mergedPath : string := filepath_Join workDir "merged_1kb.bin".

(** What the download loop obtains, from round [i] on: the rounds whose
    download succeeds, with the bytes that the store returned. *)
Fixpoint fetched (env : sdk) (i : nat) (rootHashes : list string)
  : list (nat * list byte) :=
  match rootHashes with
  | [] => []
  | root :: rest =>
      match downloader_Download env i root with
      | Ok data => (i, data) :: fetched env (S i) rest
      | Err _ => fetched env (S i) rest
      end
  end.

(** An end of the process that the program provides for: a return, or
    [os.Exit(1)] through [log.Fatal]. *)
Definition clean_end {A} (o : outcome A) : Prop :=
  match o with
  | Ret _ => True
  | Exit code => code = 1%Z
  | Panic _ | OutOfFuel => False
  end.

(** [m] never panics and never exhausts a loop bound. *)
Definition ends {A} (m : M A) : Prop := forall st, clean_end (m st).2.

(** The events of the run proper: everything but the two deferred calls. *)
Definition work_event (e : event) : Prop :=
  match e with
  | EvRemoveAll _ | EvCloseWeb3 => False
  | _ => True
  end.

(** ** A mock SDK for examples *)

Definition mock_nodes : SelectedNodes :=
  {| Trusted := ["node-a"]; Discovered := [] |}.

(** Nodes can be selected or not; [Put] fails for at most one fragment
    index; downloads return the 256 bytes that every fragment of the
    generated file holds. *)
Definition mock_sdk (reachable : bool) (put_fails_at : option nat) : sdk := {|
  blockchain_NewWeb3 := None;
  indexer_NewClient := None;
  rand_Reader := replicate 1024 x2a;
  indexer_SelectNodes := fun _ _ =>
    if reachable then Ok mock_nodes else Err (ErrRemote "no nodes");
  transfer_NewUploader := fun _ => None;
  uploader_UploadFile := fun i _ =>
    if decide (put_fails_at = Some i) then Err (ErrRemote "put failed")
    else Ok ("tx" +:+ pretty i, "root" +:+ pretty i);
  transfer_NewDownloader := fun _ => None;
  downloader_Download := fun _ _ => Ok (replicate 256 x2a)
|}.

(** ** Small file systems for examples *)

(** Five bytes in the file [src]. *)
Definition five : list byte := [x01; x02; x03; x04; x05].

Definition fs_five : gmap string node := {["src" := File five]}.

Definition fs_empty_src : gmap string node := {["src" := File []]}.

(** The name of chunk 1 is taken by a directory. *)
Definition fs_blocked : gmap string node :=
  {["src" := File five; "out/part_1.bin" := Dir 4096]}.

(** A directory where the output should go. *)
Definition fs_five_dir : gmap string node :=
  {["src" := File five; "merged" := Dir 4096]}.

(** * Arithmetic of chunking *)

Lemma ceil_div_lt (T F i : nat) : 0 < F -> i < ceil_div T F <-> i * F < T.
Proof.
  intros HF. unfold ceil_div.
  pose proof (Nat.div_mod_eq (T + F - 1) F) as Hdm.
  pose proof (Nat.mod_upper_bound (T + F - 1) F ltac:(lia)) as Hub.
  set (q := (T + F - 1) / F) in *. set (r := (T + F - 1) mod F) in *.
  split; intros H; nia.
Qed.

Lemma ceil_div_0 (F : nat) : 0 < F -> ceil_div 0 F = 0.
Proof.
  intros HF. unfold ceil_div. apply Nat.div_small. lia.
Qed.

Lemma ceil_div_le (T F : nat) : 0 < F -> ceil_div T F <= T.
Proof.
  intros HF. destruct (decide (ceil_div T F <= T)) as [|Hn]; [done|].
  assert (T < ceil_div T F) as H%ceil_div_lt by lia; [nia | done].
Qed.

(** * Strings: names of chunk files are pairwise different *)

Lemma string_length_app (s t : string) :
  String.length (s +:+ t) = String.length s + String.length t.
Proof. induction s as [|a s IH]; simpl; [done | by rewrite IH]. Qed.

Lemma string_app_inj_r (t s1 s2 : string) : s1 +:+ t = s2 +:+ t -> s1 = s2.
Proof.
  revert s2. induction s1 as [|a s1 IH]; intros [|b s2] H; simpl in *.
  - done.
  - apply (f_equal String.length) in H.
    rewrite !string_length_app in H. simpl in H. lia.
  - apply (f_equal String.length) in H.
    rewrite !string_length_app in H. simpl in H. lia.
  - injection H as Hab Hs. subst b. f_equal. by apply IH.
Qed.

Lemma filepath_Join_inj (dir a b : string) :
  a <> "" -> b <> "" -> filepath_Join dir a = filepath_Join dir b -> a = b.
Proof.
  intros Ha Hb. unfold filepath_Join.
  repeat case_decide; try done.
  intros Heq. by apply (inj (String.app dir)), (inj (String.app "/")) in Heq.
Qed.

Lemma part_name_inj (outDir : string) (i j : nat) :
  part_name outDir i = part_name outDir j -> i = j.
Proof.
  unfold part_name. intros H. apply filepath_Join_inj in H; [|done..].
  apply (inj (String.app "part_")), string_app_inj_r in H.
  by apply (inj pretty) in H.
Qed.

(** * Equations of the file-system primitives *)

Ltac run_prim :=
  unfold bind, emit, get_files, put_files, ret, panic, out_of_fuel, log_Fatal;
  simpl.

Lemma bind_get_files {A} (k : gmap string node -> M A) (st : state) :
  bind get_files k st = k (files st) st.
Proof. done. Qed.

Lemma os_Open_some fs tr p nd :
  fs !! p = Some nd ->
  os_Open p (State fs tr) = (State fs (tr ++ [EvOpen p]), Ret (Ok (Handle p 0))).
Proof. intros H. unfold os_Open. run_prim. by rewrite H. Qed.

Lemma os_Open_none fs tr p :
  fs !! p = None ->
  os_Open p (State fs tr) = (State fs (tr ++ [EvOpen p]), Ret (Err (ENOENT p))).
Proof. intros H. unfold os_Open. run_prim. by rewrite H. Qed.

Lemma os_Create_ok fs tr p :
  is_dir (fs !! p) = false ->
  os_Create p (State fs tr)
  = (State (<[p := File []]> fs) (tr ++ [EvCreate p]), Ret (Ok (Handle p 0))).
Proof.
  intros H. unfold os_Create. run_prim. by destruct (fs !! p) as [[]|].
Qed.

Lemma os_Create_dir fs tr p sz :
  fs !! p = Some (Dir sz) ->
  os_Create p (State fs tr) = (State fs (tr ++ [EvCreate p]), Ret (Err (EISDIR p))).
Proof. intros H. unfold os_Create. run_prim. by rewrite H. Qed.

Lemma os_WriteFile_ok fs tr p data :
  is_dir (fs !! p) = false ->
  os_WriteFile p data (State fs tr)
  = (State (<[p := File data]> fs) (tr ++ [EvWriteFile p]), Ret None).
Proof.
  intros H. unfold os_WriteFile. run_prim. by destruct (fs !! p) as [[]|].
Qed.

Lemma file_Read_data fs tr p off buf data :
  fs !! p = Some (File data) -> length buf <> 0 -> off < length data ->
  file_Read (Handle p off) buf (State fs tr)
  = (State fs (tr ++ [EvRead p]),
     Ret (let got := take (length buf) (drop off data) in
          (length got, None, got ++ drop (length got) buf,
           Handle p (off + length got)))).
Proof.
  intros H Hb Ho. unfold file_Read. run_prim. rewrite H.
  rewrite decide_False by done. by rewrite decide_False by lia.
Qed.

Lemma file_Read_eof fs tr p off buf data :
  fs !! p = Some (File data) -> length buf <> 0 -> length data <= off ->
  file_Read (Handle p off) buf (State fs tr)
  = (State fs (tr ++ [EvRead p]), Ret (0, Some EOF, buf, Handle p off)).
Proof.
  intros H Hb Ho. unfold file_Read. run_prim. rewrite H.
  rewrite decide_False by done. by rewrite decide_True by lia.
Qed.

Lemma file_Read_dir fs tr p off buf sz :
  fs !! p = Some (Dir sz) ->
  file_Read (Handle p off) buf (State fs tr)
  = (State fs (tr ++ [EvRead p]), Ret (0, Some (EISDIR p), buf, Handle p off)).
Proof. intros H. unfold file_Read. run_prim. by rewrite H. Qed.

(** * splitFile *)

Lemma length_chunk (F : nat) (data : list byte) (i : nat) :
  length (chunk F data i) = F `min` (length data - i * F).
Proof. unfold chunk. by rewrite length_take, length_drop. Qed.

Section SplitFile.
Variables (src outDir : string) (data : list byte) (F : nat).
Hypothesis F_pos : 0 < F.

Let n := ceil_div (length data) F.

Lemma splitFile_loop_spec (fuel i : nat) fs tr (buf : list byte) acc :
  n - i < fuel ->
  length buf = F ->
  fs !! src = Some (File data) ->
  (forall j, i <= j < n ->
     part_name outDir j <> src /\ is_dir (fs !! part_name outDir j) = false) ->
  exists st',
    splitFile_loop fuel (Handle src ((i * F) `min` length data)) buf outDir i acc
      (State fs tr)
    = (st', Ret (Ok (acc ++ (part_name outDir <$> seq i (n - i)))))
    /\ (forall j, i <= j < n ->
          files st' !! part_name outDir j = Some (File (chunk F data j)))
    /\ (forall p, (forall j, i <= j < n -> p <> part_name outDir j) ->
          files st' !! p = fs !! p).
Proof.
  revert i fs tr buf acc.
  induction fuel as [|fuel IH]; intros i fs tr buf acc Hfuel Hbuf Hsrc Hfree;
    [lia|].
  destruct (decide (i < n)) as [Hi|Hi].
  - assert (i * F < length data) as HiF by (by apply ceil_div_lt).
    rewrite Nat.min_l by lia. simpl. unfold bind at 1.
    rewrite (file_Read_data _ _ _ _ _ data) by (done || lia). simpl.
    rewrite Hbuf. fold (chunk F data i).
    pose proof (length_chunk F data i) as Hlen.
    rewrite decide_False by lia.
    destruct (Hfree i ltac:(lia)) as [Hne Hnd].
    unfold bind at 1. rewrite os_WriteFile_ok by done.
    rewrite take_app_length.
    replace (i * F + length (chunk F data i))
      with ((S i * F) `min` length data) by (simpl; lia).
    match goal with
    | |- context [splitFile_loop fuel _ ?b _ _ ?a (State ?f ?t)] =>
        destruct (IH (S i) f t b a) as (st' & Hrun & Hnew & Hold); [lia| | | |]
    end.
    { rewrite length_app, length_drop. lia. }
    { by rewrite lookup_insert_ne. }
    { intros j Hj. destruct (Hfree j ltac:(lia)) as [? ?]. split; [done|].
      rewrite lookup_insert_ne; [done|]. intros ?%part_name_inj. lia. }
    exists st'. split; [|split].
    + rewrite Hrun. do 3 f_equal. rewrite <- app_assoc.
      replace (n - i) with (S (n - S i)) by lia. done.
    + intros j Hj. destruct (decide (j = i)) as [->|].
      * rewrite Hold; [by rewrite lookup_insert_eq|].
        intros j' Hj' ?%part_name_inj. lia.
      * apply Hnew. lia.
    + intros p Hp. rewrite Hold; [|intros j' Hj'; apply Hp; lia].
      rewrite lookup_insert_ne; [done|]. intros <-. by apply (Hp i).
  - assert (~ i * F < length data) as HiF by (by rewrite <- ceil_div_lt).
    rewrite Nat.min_r by lia. simpl. unfold bind at 1.
    rewrite (file_Read_eof _ _ _ _ _ data) by (done || lia). simpl.
    exists (State fs (tr ++ [EvRead src])). split; [|split].
    + unfold ret. replace (n - i) with 0 by lia. simpl.
      by rewrite app_nil_r.
    + intros j Hj. lia.
    + done.
Qed.

End SplitFile.

(** ** What the chunks of a byte sequence look like *)

Lemma concat_chunks (F : nat) (data : list byte) (i k : nat) :
  concat (chunk F data <$> seq i k) = take (k * F) (drop (i * F) data).
Proof.
  revert i. induction k as [|k IH]; intros i; simpl; [done|].
  rewrite IH. unfold chunk.
  replace (S i * F) with (i * F + F) by (simpl; lia).
  by rewrite <- drop_drop, take_take_drop.
Qed.

Lemma concat_chunks_of (F : nat) (data : list byte) :
  0 < F -> concat (chunks_of F data) = data.
Proof.
  intros HF. unfold chunks_of. rewrite concat_chunks. simpl. rewrite drop_0.
  apply take_ge.
  destruct (decide (length data <= ceil_div (length data) F * F)); [done|].
  assert (ceil_div (length data) F < ceil_div (length data) F); [|lia].
  apply ceil_div_lt; [done | lia].
Qed.

Lemma length_chunks_of (F : nat) (data : list byte) :
  length (chunks_of F data) = ceil_div (length data) F.
Proof. unfold chunks_of. by rewrite length_fmap, length_seq. Qed.

Lemma chunks_of_lookup (F : nat) (data : list byte) (i : nat) (c : list byte) :
  chunks_of F data !! i = Some c ->
  c = chunk F data i /\ i < ceil_div (length data) F.
Proof.
  unfold chunks_of. rewrite list_lookup_fmap.
  destruct (seq _ _ !! i) as [j|] eqn:Hj; [|done].
  apply lookup_seq in Hj as [-> ?]. simpl. intros [= <-]. done.
Qed.

Lemma chunk_full (F : nat) (data : list byte) (i : nat) :
  0 < F -> S i < ceil_div (length data) F -> length (chunk F data i) = F.
Proof.
  intros HF Hi%ceil_div_lt; [|done]. rewrite length_chunk. simpl in Hi. lia.
Qed.

Lemma chunk_last (F : nat) (data : list byte) :
  0 < F ->
  let n := ceil_div (length data) F in
  0 < n -> length (chunk F data (n - 1)) = length data - F * (n - 1).
Proof.
  intros HF n Hn. rewrite length_chunk.
  assert (~ n * F < length data) by (rewrite <- ceil_div_lt by done; lia).
  assert ((n - 1) * F < length data) by (apply ceil_div_lt; [done|]; lia).
  nia.
Qed.

Lemma chunk_nonempty (F : nat) (data : list byte) (i : nat) :
  0 < F -> i < ceil_div (length data) F -> 0 < length (chunk F data i).
Proof.
  intros HF Hi%ceil_div_lt; [|done]. rewrite length_chunk. lia.
Qed.

(** ** splitFile on a readable source whose chunk names are free *)

Lemma splitFile_spec fs tr (src outDir : string) (data : list byte) (F : nat) :
  0 < F ->
  fs !! src = Some (File data) ->
  names_free fs src outDir (ceil_div (length data) F) ->
  exists st',
    splitFile src (Z.of_nat F) outDir (State fs tr)
    = (st', Ret (Ok (part_name outDir <$> seq 0 (ceil_div (length data) F))))
    /\ contents (files st') (part_name outDir <$> seq 0 (ceil_div (length data) F))
       = Some (chunks_of F data)
    /\ (forall p, (forall j, j < ceil_div (length data) F ->
                     p <> part_name outDir j) ->
          files st' !! p = fs !! p).
Proof.
  intros HF Hsrc Hfree. unfold splitFile. unfold bind at 1.
  rewrite (os_Open_some _ _ _ (File data)) by done.
  rewrite decide_False by lia. rewrite bind_get_files. cbn [files].
  rewrite Hsrc. cbn [node_size]. rewrite Nat2Z.id.
  destruct (splitFile_loop_spec src outDir data F HF
              (S (length data)) 0 fs (tr ++ [EvOpen src])
              (replicate F x00) [])
    as (st' & Hrun & Hnew & Hold).
  { pose proof (ceil_div_le (length data) F HF). lia. }
  { by rewrite length_replicate. }
  { done. }
  { intros j Hj. apply Hfree. lia. }
  cbn [Nat.mul Nat.min app] in Hrun. rewrite Nat.sub_0_r in Hrun.
  exists st'. split; [done|]. split.
  - apply mapM_Some. unfold chunks_of. apply Forall2_fmap.
    apply Forall_Forall2_diag, Forall_forall. intros j Hj%elem_of_seq.
    rewrite Hnew by lia. done.
  - intros p Hp. apply Hold. intros j Hj. apply Hp. lia.
Qed.

(** C1: for a source of [T] bytes and a chunk size [F > 0], [splitFile]
    returns, in order, the names of [ceil(T/F)] chunk files (none when
    [T = 0]); every chunk but the last holds exactly [F] bytes, the last
    holds [T - F * (ceil(T/F) - 1)], and the lengths add up to [T]. *)
Theorem splitFile_chunks fs tr (src outDir : string) (data : list byte)
    (F : nat) :
  0 < F ->
  fs !! src = Some (File data) ->
  names_free fs src outDir (ceil_div (length data) F) ->
  let T := length data in
  let n := ceil_div T F in
  exists st' paths chunks,
    splitFile src (Z.of_nat F) outDir (State fs tr) = (st', Ret (Ok paths))
    /\ paths = part_name outDir <$> seq 0 n
    /\ contents (files st') paths = Some chunks
    /\ length chunks = n
    /\ (T = 0 -> paths = [])
    /\ (forall i c, chunks !! i = Some c -> S i < n -> length c = F)
    /\ (forall c, last chunks = Some c -> length c = T - F * (n - 1))
    /\ sum_list (length <$> chunks) = T.
Proof.
  intros HF Hsrc Hfree T n.
  destruct (splitFile_spec fs tr src outDir data F HF Hsrc Hfree)
    as (st' & Hrun & Hcont & _).
  exists st', (part_name outDir <$> seq 0 n), (chunks_of F data).
  split; [done|]. split; [done|]. split; [done|].
  split; [apply length_chunks_of|]. split; [|split; [|split]].
  - intros HT. subst n. rewrite HT, ceil_div_0 by done. done.
  - intros i c [-> _]%chunks_of_lookup Hi. by apply chunk_full.
  - intros c. rewrite last_lookup, length_chunks_of.
    intros [-> Hn]%chunks_of_lookup.
    replace (pred (ceil_div (length data) F)) with (n - 1)
      by (unfold n, T; lia).
    apply chunk_last; [done | fold n; lia].
  - rewrite <- length_concat, concat_chunks_of by done. done.
Qed.

(** ** splitFile on any file system: termination and non-empty chunks *)

Lemma file_Read_cases (f : handle) (buf : list byte) (st : state) :
  exists n err buf' off',
    file_Read f buf st
    = (State (files st) (trace st ++ [EvRead (h_path f)]),
       Ret (n, err, buf', Handle (h_path f) off'))
    /\ length (take n buf') = n
    /\ (err = None -> n <> 0 ->
        off' = h_off f + n /\ remaining (files st) (h_path f) off'
                          < remaining (files st) (h_path f) (h_off f)).
Proof.
  destruct f as [p off], st as [fs tr]. unfold file_Read, remaining.
  run_prim. destruct (fs !! p) as [[data|sz]|] eqn:Hp.
  - case_decide as Hb; [|case_decide as Ho].
    + exists 0, None, buf, off. by rewrite take_0.
    + exists 0, (Some EOF), buf, off. by rewrite take_0.
    + eexists _, None, _, _. split; [done|].
      rewrite take_app_length. split; [done|].
      rewrite length_take, length_drop. lia.
  - exists 0, (Some (EISDIR p)), buf, off. by rewrite take_0.
  - exists 0, (Some (ENOENT p)), buf, off. by rewrite take_0.
Qed.

Lemma os_WriteFile_cases (p : string) (data : list byte) (st : state) :
  (exists e, os_WriteFile p data st
             = (State (files st) (trace st ++ [EvWriteFile p]), Ret (Some e)))
  \/ os_WriteFile p data st
     = (State (<[p := File data]> (files st)) (trace st ++ [EvWriteFile p]),
        Ret None).
Proof.
  destruct st as [fs tr]. unfold os_WriteFile. run_prim.
  destruct (fs !! p) as [[|]|]; eauto.
Qed.

Section SplitFileAny.
Variables (src outDir : string).

Lemma splitFile_loop_returns (fuel off i : nat) (buf : list byte) acc st :
  remaining (files st) src off < fuel ->
  exists st' r,
    splitFile_loop fuel (Handle src off) buf outDir i acc st = (st', Ret r).
Proof.
  revert off i buf acc st.
  induction fuel as [|fuel IH]; intros off i buf acc st Hfuel; [lia|].
  simpl. unfold bind at 1.
  destruct (file_Read_cases (Handle src off) buf st)
    as (n & err & buf' & off' & -> & Hn & Hadv). simpl in *.
  destruct err as [e|]; [destruct (is_EOF e); by eexists _, _|].
  case_decide as Hz; [by eexists _, _|].
  destruct (Hadv eq_refl Hz) as [Hoff Hrem].
  unfold bind at 1.
  destruct (os_WriteFile_cases (part_name outDir i) (take n buf')
              (State (files st) (trace st ++ [EvRead src])))
    as [[e ->]| ->]; [by eexists _, _|].
  apply IH. simpl. unfold remaining in *.
  destruct (decide (part_name outDir i = src)) as [Heq|Hne].
  - rewrite Heq, lookup_insert_eq. destruct (files st !! src) as [[]|]; lia.
  - rewrite lookup_insert_ne by done. lia.
Qed.

Lemma splitFile_loop_nonempty (fuel : nat) (f : handle) (i : nat)
    (buf : list byte) acc st st' paths :
  Forall (fun p => exists j, j < i /\ p = part_name outDir j) acc ->
  Forall (nonempty_file (files st)) acc ->
  splitFile_loop fuel f buf outDir i acc st = (st', Ret (Ok paths)) ->
  Forall (nonempty_file (files st')) paths.
Proof.
  revert f i buf acc st.
  induction fuel as [|fuel IH]; intros f i buf acc st Hacc Hne; [done|].
  simpl. unfold bind at 1.
  destruct (file_Read_cases f buf st)
    as (n & err & buf' & off' & -> & Hn & _). simpl.
  destruct err as [e|].
  { destruct (is_EOF e); intros [= <- <-]; done. }
  case_decide as Hz; [by intros [= <- <-]|].
  unfold bind at 1.
  destruct (os_WriteFile_cases (part_name outDir i) (take n buf')
              (State (files st) (trace st ++ [EvRead (h_path f)])))
    as [[e ->]| ->]; [done|].
  apply IH; simpl.
  - apply Forall_app. split.
    + eapply Forall_impl; [exact Hacc|]. intros p (j & ? & ->).
      exists j. split; [lia | done].
    + apply Forall_singleton. exists i. split; [lia | done].
  - apply Forall_app. split.
    + eapply Forall_impl; [apply Forall_and; split; [exact Hacc | exact Hne]|].
      intros p [(j & Hj & ->) (d & Hd & Hlen)]. exists d. split; [|done].
      rewrite lookup_insert_ne; [done|]. intros ?%part_name_inj. lia.
    + apply Forall_singleton. exists (take n buf').
      rewrite lookup_insert_eq. split; [done | lia].
Qed.

End SplitFileAny.

(** C9: with a chunk size [F > 0], on any file system, [splitFile] returns
    (the loop ends), and every path of a returned sequence names a chunk
    file of at least one byte. *)
Theorem splitFile_chunks_nonempty (src outDir : string) (F : Z) (st : state) :
  (0 < F)%Z ->
  exists st' r,
    splitFile src F outDir st = (st', Ret r)
    /\ forall paths, r = Ok paths -> Forall (nonempty_file (files st')) paths.
Proof.
  intros HF. unfold splitFile. unfold bind at 1.
  destruct st as [fs tr].
  destruct (fs !! src) as [nd|] eqn:Hsrc.
  2:{ rewrite os_Open_none by done. eexists _, _. split; [done|].
      intros paths [=]. }
  rewrite (os_Open_some _ _ _ nd) by done.
  rewrite decide_False by lia. rewrite bind_get_files. cbn [files].
  rewrite Hsrc.
  destruct (splitFile_loop_returns src outDir (S (node_size (Some nd))) 0 0
              (replicate (Z.to_nat F) x00) []
              (State fs (tr ++ [EvOpen src]))) as (st' & r & Hrun).
  { unfold remaining. simpl. rewrite Hsrc. destruct nd; simpl; lia. }
  exists st', r. split; [done|]. intros paths ->.
  eapply splitFile_loop_nonempty; [| |exact Hrun]; done.
Qed.

(** * mergeFiles *)

Lemma file_Write_append fs tr p (old data : list byte) :
  fs !! p = Some (File old) ->
  file_Write (Handle p (length old)) data (State fs tr)
  = (State (<[p := File (old ++ data)]> fs) (tr ++ [EvWrite p]),
     Ret (length data, None, Handle p (length old + length data))).
Proof.
  intros H. unfold file_Write. run_prim. rewrite H. simpl.
  rewrite Nat.sub_diag. simpl. rewrite app_nil_r.
  rewrite take_ge, drop_ge by lia. by rewrite app_nil_r.
Qed.

Lemma io_Copy_file fs tr dst src (old data : list byte) :
  fs !! src = Some (File data) ->
  fs !! dst = Some (File old) ->
  io_Copy (Handle dst (length old)) (Handle src 0) (State fs tr)
  = (State (<[dst := File (old ++ data)]> fs)
       ((tr ++ [EvRead src]) ++ [EvWrite dst]),
     Ret (length data, None, Handle dst (length old + length data))).
Proof.
  intros Hs Hd. unfold io_Copy. unfold bind at 1, emit at 1.
  rewrite bind_get_files. cbn [files h_path h_off]. rewrite Hs, drop_0.
  by rewrite file_Write_append.
Qed.

Lemma io_Copy_dir fs tr dst src sz :
  fs !! h_path src = Some (Dir sz) ->
  io_Copy dst src (State fs tr)
  = (State fs (tr ++ [EvRead (h_path src)]),
     Ret (0, Some (EISDIR (h_path src)), dst)).
Proof. intros Hs. unfold io_Copy. run_prim. by rewrite Hs. Qed.

Lemma contents_Forall2 fs paths chunks :
  contents fs paths = Some chunks <-> Forall2 (holds fs) paths chunks.
Proof.
  unfold contents. rewrite mapM_Some.
  split; intros H; (eapply Forall2_impl; [exact H|]); intros p c;
    unfold holds; destruct (fs !! p) as [[]|]; naive_solver.
Qed.

Lemma holds_insert_ne fs out nd paths chunks :
  out ∉ paths ->
  Forall2 (holds fs) paths chunks -> Forall2 (holds (<[out := nd]> fs)) paths chunks.
Proof.
  intros Hout H. induction H as [|p c paths chunks Hp _ IH]; [done|].
  apply not_elem_of_cons in Hout as [? ?]. constructor; [|by apply IH].
  unfold holds. by rewrite lookup_insert_ne.
Qed.

Section MergeFiles.
Variable out : string.

Lemma mergeFiles_loop_ok paths chunks fs tr (old : list byte) :
  out ∉ paths ->
  Forall2 (holds fs) paths chunks ->
  fs !! out = Some (File old) ->
  exists tr',
    mergeFiles_loop (Handle out (length old)) paths (State fs tr)
    = (State (<[out := File (old ++ concat chunks)]> fs) tr', Ret None).
Proof.
  intros Hout H. revert chunks fs tr old Hout H.
  induction paths as [|p paths IH]; intros chunks fs tr old Hout H Hold;
    inversion H as [|? c ? cs Hp Hrest]; subst; simpl.
  - exists tr. unfold ret. by rewrite app_nil_r, insert_id.
  - apply not_elem_of_cons in Hout as [Hpo Hout].
    unfold bind at 1. rewrite (os_Open_some _ _ _ (File c)) by done.
    unfold bind at 1. rewrite (io_Copy_file _ _ _ _ old c) by done.
    rewrite <- length_app.
    edestruct (IH cs (<[out := File (old ++ c)]> fs)) as [tr' ->].
    { done. }
    { by apply holds_insert_ne. }
    { by rewrite lookup_insert_eq. }
    exists tr'. by rewrite insert_insert_eq, <- app_assoc.
Qed.

Lemma mergeFiles_loop_abort pre bad post chunks fs tr (old : list byte) :
  out ∉ pre -> bad <> out ->
  Forall2 (holds fs) pre chunks ->
  fs !! out = Some (File old) ->
  fs !! bad = None \/ is_dir (fs !! bad) = true ->
  exists tr' e,
    mergeFiles_loop (Handle out (length old)) (pre ++ bad :: post)
      (State fs tr)
    = (State (<[out := File (old ++ concat chunks)]> fs) tr', Ret (Some e))
    /\ io_error e = true.
Proof.
  intros Hout Hbad H. revert chunks fs tr old Hout H.
  induction pre as [|p pre IH]; intros chunks fs tr old Hout H Hold Hun;
    inversion H as [|? c ? cs Hp Hrest]; subst; simpl.
  - rewrite app_nil_r, insert_id by done. unfold bind at 1.
    destruct Hun as [Hnone|Hdir].
    + rewrite os_Open_none by done. by eexists _, _.
    + destruct (fs !! bad) as [[|sz]|] eqn:Hb; try done.
      rewrite (os_Open_some _ _ _ (Dir sz)) by done.
      unfold bind at 1. rewrite (io_Copy_dir _ _ _ _ sz) by done.
      by eexists _, _.
  - apply not_elem_of_cons in Hout as [Hpo Hout].
    unfold bind at 1. rewrite (os_Open_some _ _ _ (File c)) by done.
    unfold bind at 1. rewrite (io_Copy_file _ _ _ _ old c) by done.
    rewrite <- length_app.
    edestruct (IH cs (<[out := File (old ++ c)]> fs)) as (tr' & e & -> & He).
    { done. }
    { by apply holds_insert_ne. }
    { by rewrite lookup_insert_eq. }
    { by rewrite lookup_insert_ne. }
    exists tr', e. by rewrite insert_insert_eq, <- app_assoc.
Qed.

Lemma mergeFiles_ok paths chunks fs tr :
  Forall2 (holds fs) paths chunks ->
  out ∉ paths -> is_dir (fs !! out) = false ->
  exists tr',
    mergeFiles paths out (State fs tr)
    = (State (<[out := File (concat chunks)]> fs) tr', Ret None).
Proof.
  intros H Hout Hnd. unfold mergeFiles. unfold bind at 1.
  rewrite os_Create_ok by done.
  edestruct (mergeFiles_loop_ok paths chunks (<[out := File []]> fs))
    as [tr' Hrun]; [done | by apply holds_insert_ne | apply lookup_insert_eq |].
  simpl in Hrun. rewrite Hrun. exists tr'. by rewrite insert_insert_eq.
Qed.

End MergeFiles.

(** C2: merging, in order, exactly the chunk files that [splitFile] wrote
    gives back the bytes of the source. *)
Theorem split_merge_roundtrip fs tr (src outDir out : string)
    (data : list byte) (F : nat) :
  0 < F ->
  fs !! src = Some (File data) ->
  names_free fs src outDir (ceil_div (length data) F) ->
  (forall j, j < ceil_div (length data) F -> out <> part_name outDir j) ->
  is_dir (fs !! out) = false ->
  exists st1 paths st2,
    splitFile src (Z.of_nat F) outDir (State fs tr) = (st1, Ret (Ok paths))
    /\ mergeFiles paths out st1 = (st2, Ret None)
    /\ files st2 !! out = Some (File data).
Proof.
  intros HF Hsrc Hfree Hout Hnd.
  destruct (splitFile_spec fs tr src outDir data F HF Hsrc Hfree)
    as ([fs1 tr1] & Hrun & Hcont & Hold). simpl in *.
  apply contents_Forall2 in Hcont.
  destruct (mergeFiles_ok out _ _ fs1 tr1 Hcont) as [tr2 Hmerge].
  { intros (j & -> & Hj%elem_of_seq)%list_elem_of_fmap.
    by apply (Hout j); [lia|]. }
  { by rewrite Hold. }
  eexists _, _, _. split; [exact Hrun|]. split; [exact Hmerge|].
  simpl. by rewrite lookup_insert_eq, concat_chunks_of.
Qed.

(** C7: [mergeFiles] returns the error of [os.Create], with no file
    changed, whenever the output cannot be created, whatever the
    fragments are; and when fragment number [length pre] cannot be opened
    or read it returns a file-system error while the output keeps the
    bytes of the fragments before it: nothing is rolled back and nothing
    else is touched. *)
Theorem mergeFiles_aborts fs tr (out : string) (paths : list string) :
  (is_dir (fs !! out) = true ->
     mergeFiles paths out (State fs tr)
     = (State fs (tr ++ [EvCreate out]), Ret (Some (EISDIR out))))
  /\ (forall (pre post : list string) (bad : string)
             (chunks : list (list byte)),
        paths = pre ++ bad :: post ->
        out ∉ pre -> bad <> out ->
        contents fs pre = Some chunks ->
        fs !! bad = None \/ is_dir (fs !! bad) = true ->
        is_dir (fs !! out) = false ->
        exists tr' e,
          mergeFiles paths out (State fs tr)
          = (State (<[out := File (concat chunks)]> fs) tr', Ret (Some e))
          /\ io_error e = true).
Proof.
  split.
  - intros Hd. destruct (fs !! out) as [[|sz]|] eqn:Ho; try done.
    unfold mergeFiles. unfold bind at 1.
    by rewrite (os_Create_dir _ _ _ sz).
  - intros pre post bad chunks -> Hout Hbad Hcont%contents_Forall2 Hun Hd.
    unfold mergeFiles. unfold bind at 1. rewrite os_Create_ok by done.
    edestruct (mergeFiles_loop_abort out pre bad post chunks
                 (<[out := File []]> fs)) as (tr' & e & Hrun & He).
    { done. } { done. } { by apply holds_insert_ne. }
    { apply lookup_insert_eq. } { by rewrite lookup_insert_ne. }
    simpl in Hrun. rewrite Hrun. exists tr', e.
    by rewrite insert_insert_eq.
Qed.

(** * filesEqual *)

Lemma buffers_differ_false (n : nat) (buf1 buf2 : list byte) :
  n <= length buf1 -> n <= length buf2 ->
  buffers_differ n buf1 buf2 = false <-> take n buf1 = take n buf2.
Proof.
  revert buf1 buf2. induction n as [|n IH]; intros buf1 buf2 H1 H2; [done|].
  destruct buf1 as [|b1 r1], buf2 as [|b2 r2]; simpl in *; try lia.
  destruct (Byte.eqb b1 b2) eqn:Hb.
  - apply Byte.byte_dec_bl in Hb as ->. rewrite IH by lia.
    split; [by intros -> | by intros [= ->]].
  - split; [done|]. intros [= -> _].
    by rewrite Byte.byte_dec_lb in Hb.
Qed.

Lemma take_length_take {A} (B : nat) (l : list A) :
  take (length (take B l)) l = take B l.
Proof.
  rewrite length_take. destruct (decide (B <= length l)).
  - by rewrite Nat.min_l.
  - rewrite Nat.min_r by lia. by rewrite !take_ge by lia.
Qed.

Lemma drop_split {A} (B off : nat) (l : list A) :
  drop off l
  = take B (drop off l) ++ drop (off + length (take B (drop off l))) l.
Proof.
  rewrite <- drop_drop.
  rewrite <- (take_drop (length (take B (drop off l))) (drop off l)) at 1.
  by rewrite take_length_take.
Qed.

Section FilesEqual.
Variables (fs : gmap string node) (f1 f2 : string).

Section Regular.
Variables (d1 d2 : list byte).
Hypothesis file1 : fs !! f1 = Some (File d1).
Hypothesis file2 : fs !! f2 = Some (File d2).
Hypothesis same_size : length d1 = length d2.

Lemma filesEqual_loop_regular (fuel off : nat) (buf1 buf2 : list byte) tr :
  length d1 - off < fuel ->
  length buf1 = length buf2 -> length buf1 <> 0 ->
  exists tr' b,
    filesEqual_loop fuel (Handle f1 off) (Handle f2 off) buf1 buf2
      (State fs tr) = (State fs tr', Ret b)
    /\ (b = true <-> drop off d1 = drop off d2).
Proof.
  revert off buf1 buf2 tr.
  induction fuel as [|fuel IH]; intros off buf1 buf2 tr Hfuel Hbuf Hnz; [lia|].
  simpl. destruct (decide (off < length d1)) as [Hoff|Hoff].
  - unfold bind at 1. rewrite (file_Read_data _ _ _ _ _ d1) by done.
    unfold bind at 1.
    rewrite (file_Read_data _ _ _ _ _ d2) by (done || lia).
    cbv zeta. rewrite <- Hbuf.
    set (got1 := take (length buf1) (drop off d1)).
    set (got2 := take (length buf1) (drop off d2)).
    assert (length got1 = length got2) as Hgot
      by (unfold got1, got2; rewrite !length_take, !length_drop; lia).
    assert (0 < length got1) as Hpos
      by (unfold got1; rewrite length_take, length_drop; lia).
    assert (drop off d1 = drop off d2
            <-> got1 = got2
                /\ drop (off + length got1) d1 = drop (off + length got1) d2)
      as Hsplit.
    { rewrite (drop_split (length buf1) off d1).
      rewrite (drop_split (length buf1) off d2).
      fold got1 got2. rewrite <- Hgot. split.
      - intros H. by apply app_inj_1 in H.
      - by intros [-> ->]. }
    rewrite decide_False by (intros ?; done).
    destruct (buffers_differ _ _ _) eqn:Hdiff.
    + eexists _, false. split; [done|]. split; [done|].
      rewrite Hsplit. intros [Heq _].
      assert (buffers_differ (length got1)
                (got1 ++ drop (length got1) buf1)
                (got2 ++ drop (length got2) buf2) = false); [|congruence].
      apply buffers_differ_false;
        [rewrite length_app; lia | rewrite length_app; lia |].
      rewrite take_app_length. rewrite Hgot, take_app_length. done.
    + apply buffers_differ_false in Hdiff;
        [|rewrite length_app; lia | rewrite length_app; lia].
      rewrite take_app_length in Hdiff.
      rewrite Hgot, take_app_length in Hdiff.
      rewrite <- Hgot.
      edestruct (IH (off + length got1)) as (tr' & b & Hrun & Hb);
        [lia | | | rewrite Hrun].
      { rewrite !length_app, !length_drop. lia. }
      { rewrite length_app. lia. }
      exists tr', b. split; [done|]. rewrite Hb, Hsplit.
      split; [by intros ? | by intros [_ ?]].
  - unfold bind at 1. rewrite (file_Read_eof _ _ _ _ _ d1) by (done || lia).
    unfold bind at 1.
    rewrite (file_Read_eof _ _ _ _ _ d2) by (done || lia).
    simpl. eexists _, true. split; [done|].
    by rewrite !drop_ge by lia.
Qed.

End Regular.

Lemma filesEqual_loop_dir (fuel : nat) (h1 h2 : handle)
    (buf1 buf2 : list byte) st :
  h_path h1 = f1 -> h_path h2 = f2 -> files st = fs ->
  is_dir (fs !! f1) = true \/ is_dir (fs !! f2) = true ->
  exists tr',
    filesEqual_loop (S fuel) h1 h2 buf1 buf2 st = (State fs tr', Ret false).
Proof.
  intros <- <- <- Hdir. simpl. destruct h1 as [p1 o1], h2 as [p2 o2], st as [fs0 tr].
  simpl in *. unfold bind at 1.
  destruct Hdir as [Hd|Hd].
  - destruct (fs0 !! p1) as [[|sz]|] eqn:Hp; try done.
    rewrite (file_Read_dir _ _ _ _ _ sz) by done.
    unfold bind at 1.
    destruct (file_Read_cases (Handle p2 o2) buf2
                (State fs0 (tr ++ [EvRead p1])))
      as (n & err & buf' & off' & -> & _). simpl.
    destruct err; by eexists.
  - destruct (file_Read_cases (Handle p1 o1) buf1 (State fs0 tr))
      as (n & err & buf' & off' & -> & _). simpl.
    destruct (fs0 !! p2) as [[|sz]|] eqn:Hp; try done.
    unfold bind at 1. rewrite (file_Read_dir _ _ _ _ _ sz) by done.
    destruct err as [e|]; [|by eexists].
    rewrite andb_false_r. by eexists.
Qed.

Lemma file_Size_eq (f : handle) tr :
  file_Size f (State fs tr)
  = (State fs (tr ++ [EvStat (h_path f)]), Ret (node_size (fs !! h_path f))).
Proof. done. Qed.

(** Everything that [filesEqual] can do, by the state of its two inputs. *)
Lemma filesEqual_spec tr :
  exists tr' b,
    filesEqual f1 f2 (State fs tr) = (State fs tr', Ret b)
    /\ (fs !! f1 = None \/ fs !! f2 = None -> b = false)
    /\ (is_dir (fs !! f1) = true \/ is_dir (fs !! f2) = true -> b = false)
    /\ (is_Some (fs !! f1) -> is_Some (fs !! f2) ->
        node_size (fs !! f1) <> node_size (fs !! f2) ->
        b = false /\ tr' = tr ++ [EvOpen f1; EvOpen f2; EvStat f1; EvStat f2])
    /\ (forall d1 d2,
          fs !! f1 = Some (File d1) -> fs !! f2 = Some (File d2) ->
          length d1 = length d2 -> (b = true <-> d1 = d2)).
Proof.
  unfold filesEqual. unfold bind at 1.
  destruct (fs !! f1) as [n1|] eqn:H1.
  2:{ rewrite os_Open_none by done. eexists _, false. split; [done|].
      repeat split; try done; try (by intros [? ?]). }
  rewrite (os_Open_some _ _ _ n1) by done. unfold bind at 1.
  destruct (fs !! f2) as [n2|] eqn:H2.
  2:{ rewrite os_Open_none by done. eexists _, false. split; [done|].
      repeat split; try done; try (by intros ? [? ?]). }
  rewrite (os_Open_some _ _ _ n2) by done.
  unfold bind at 1. rewrite file_Size_eq. unfold bind at 1.
  rewrite file_Size_eq. cbn [h_path]. rewrite H1, H2.
  case_decide as Hsz.
  { eexists _, false. split; [done|]. split_and!; try done.
    - intros _ _ _. split; [done|]. by rewrite <- !app_assoc.
    - intros d1 d2 [= ->] [= ->] ?. done. }
  destruct (decide (is_dir (Some n1) = true \/ is_dir (Some n2) = true))
    as [Hdir|Hreg].
  { match goal with
    | |- context [filesEqual_loop (S ?fu) ?h1 ?h2 ?b1 ?b2 ?st] =>
        destruct (filesEqual_loop_dir fu h1 h2 b1 b2 st eq_refl eq_refl eq_refl)
          as [tr' ->]; [by rewrite H1, H2|]
    end.
    eexists _, false. split; [done|]. split_and!; try done.
    intros d1 d2 [= ->] [= ->]. simpl in Hdir. by destruct Hdir. }
  destruct n1 as [d1|]; [|simpl in Hreg; tauto].
  destruct n2 as [d2|]; [|simpl in Hreg; tauto].
  simpl in Hsz.
  edestruct (filesEqual_loop_regular d1 d2 H1 H2 Hsz (S (length d1)) 0)
    as (tr' & b & -> & Hb); [lia | done | by rewrite length_replicate |].
  exists tr', b. split; [done|]. split_and!.
  - by intros [?|?].
  - by intros [?|?].
  - done.
  - intros ? ? [= <-] [= <-] _. by rewrite Hb, !drop_0.
Qed.

End FilesEqual.

(** C3: [filesEqual] always answers with a boolean and leaves the files
    alone.  When both inputs open and their sizes differ the answer is
    [false] and no byte has been read; for two regular files of the same
    size it is [true] exactly when the bytes are the same; when an input
    cannot be opened or cannot be read the answer is [false]. *)
Theorem filesEqual_verdict (fs : gmap string node) (tr : list event)
    (f1 f2 : string) :
  exists tr' b,
    filesEqual f1 f2 (State fs tr) = (State fs tr', Ret b)
    /\ (is_Some (fs !! f1) -> is_Some (fs !! f2) ->
        node_size (fs !! f1) <> node_size (fs !! f2) ->
        b = false /\ reads tr' = reads tr)
    /\ (forall d1 d2,
          fs !! f1 = Some (File d1) -> fs !! f2 = Some (File d2) ->
          length d1 = length d2 -> (b = true <-> d1 = d2))
    /\ (fs !! f1 = None \/ fs !! f2 = None -> b = false)
    /\ (is_dir (fs !! f1) = true \/ is_dir (fs !! f2) = true -> b = false).
Proof.
  destruct (filesEqual_spec fs f1 f2 tr)
    as (tr' & b & Hrun & Hopen & Hdir & Hsize & Hreg).
  exists tr', b. split_and!; try done.
  intros S1 S2 Hne. destruct (Hsize S1 S2 Hne) as [-> ->]. split; [done|].
  unfold reads. rewrite List.filter_app. simpl. by rewrite app_nil_r.
Qed.

(** * Computations that return, and what they emit *)

Create HintDb returns.
Create HintDb emits.

Lemma returns_ret {A} (a : A) : returns (ret a).
Proof. intros st. by eexists _, _. Qed.

Lemma returns_bind {A B} (m : M A) (k : A -> M B) :
  returns m -> (forall a, returns (k a)) -> returns (bind m k).
Proof.
  intros Hm Hk st. destruct (Hm st) as (st1 & a & H1).
  unfold bind. rewrite H1. apply Hk.
Qed.

Lemma returns_emit e : returns (emit e).
Proof. intros st. by eexists _, _. Qed.

Lemma returns_get_files : returns get_files.
Proof. intros st. by eexists _, _. Qed.

Lemma returns_put_files fs : returns (put_files fs).
Proof. intros st. by eexists _, _. Qed.

#[export] Hint Resolve returns_ret returns_emit returns_get_files
  returns_put_files : returns.

Ltac returns_step :=
  first [ solve [eauto with returns]
        | apply returns_bind; [|intros ?]
        | match goal with
          | |- returns (match ?x with _ => _ end) => destruct x
          | |- returns (if ?x then _ else _) => destruct x
          end ].

Lemma returns_os_Open p : returns (os_Open p).
Proof. unfold os_Open. repeat returns_step. Qed.

Lemma returns_os_Create p : returns (os_Create p).
Proof. unfold os_Create. repeat returns_step. Qed.

Lemma returns_os_WriteFile p data : returns (os_WriteFile p data).
Proof. unfold os_WriteFile. repeat returns_step. Qed.

Lemma returns_file_Write f data : returns (file_Write f data).
Proof. unfold file_Write. repeat returns_step. Qed.

Lemma returns_io_Copy dst src : returns (io_Copy dst src).
Proof. unfold io_Copy. repeat returns_step. Qed.

#[export] Hint Resolve returns_os_Open returns_os_Create returns_os_WriteFile
  returns_file_Write returns_io_Copy : returns.

Lemma returns_mergeFiles_loop outFile paths :
  returns (mergeFiles_loop outFile paths).
Proof.
  revert outFile. induction paths as [|p paths IH]; intros outFile; simpl.
  - eauto with returns.
  - repeat returns_step.
Qed.

Lemma returns_mergeFiles paths out : returns (mergeFiles paths out).
Proof.
  unfold mergeFiles. repeat returns_step; apply returns_mergeFiles_loop.
Qed.

Lemma returns_filesEqual f1 f2 : returns (filesEqual f1 f2).
Proof.
  intros [fs tr]. destruct (filesEqual_spec fs f1 f2 tr) as (tr' & b & H & _).
  by eexists _, _.
Qed.

#[export] Hint Resolve returns_mergeFiles returns_filesEqual : returns.

Lemma emits_ret {A} P (a : A) : emits P (ret a).
Proof. intros st. exists []. by rewrite app_nil_r. Qed.

Lemma emits_bind {A B} P (m : M A) (k : A -> M B) :
  emits P m -> (forall a, emits P (k a)) -> emits P (bind m k).
Proof.
  intros Hm Hk st. destruct (Hm st) as (evs1 & H1 & HP1).
  unfold bind. destruct (m st) as [st1 [a| | |]]; simpl in *; eauto.
  destruct (Hk a st1) as (evs2 & H2 & HP2).
  exists (evs1 ++ evs2). rewrite H2, H1, app_assoc. split; [done|].
  by apply Forall_app.
Qed.

Lemma emits_emit (P : event -> Prop) e : P e -> emits P (emit e).
Proof. intros He st. exists [e]. split; [done|]. by apply Forall_singleton. Qed.

Lemma emits_get_files P : emits P get_files.
Proof. intros st. exists []. by rewrite app_nil_r. Qed.

Lemma emits_put_files P fs : emits P (put_files fs).
Proof. intros st. exists []. simpl. by rewrite app_nil_r. Qed.

Lemma emits_stop {A} P (m : M A) :
  (forall st, trace (m st).1 = trace st) -> emits P m.
Proof. intros H st. exists []. by rewrite H, app_nil_r. Qed.

#[export] Hint Resolve emits_ret emits_get_files emits_put_files : emits.

Ltac emits_step :=
  first [ solve [eauto with emits]
        | apply emits_bind; [|intros ?]
        | apply emits_emit; exact I
        | apply emits_stop; done
        | match goal with
          | |- emits _ (match ?x with _ => _ end) => destruct x
          | |- emits _ (if ?x then _ else _) => destruct x
          end ].

Lemma emits_os_Open p : emits fs_event (os_Open p).
Proof. unfold os_Open. repeat emits_step. Qed.

Lemma emits_os_Create p : emits fs_event (os_Create p).
Proof. unfold os_Create. repeat emits_step. Qed.

Lemma emits_os_WriteFile p data : emits fs_event (os_WriteFile p data).
Proof. unfold os_WriteFile. repeat emits_step. Qed.

Lemma emits_file_Size f : emits fs_event (file_Size f).
Proof. unfold file_Size. repeat emits_step. Qed.

Lemma emits_file_Read f buf : emits fs_event (file_Read f buf).
Proof. unfold file_Read. repeat emits_step. Qed.

Lemma emits_file_Write f data : emits fs_event (file_Write f data).
Proof. unfold file_Write. repeat emits_step. Qed.

#[export] Hint Resolve emits_os_Open emits_os_Create emits_os_WriteFile
  emits_file_Size emits_file_Read emits_file_Write : emits.

Lemma emits_io_Copy dst src : emits fs_event (io_Copy dst src).
Proof. unfold io_Copy. repeat emits_step. Qed.

#[export] Hint Resolve emits_io_Copy : emits.

Lemma emits_filesEqual_loop fuel f1 f2 buf1 buf2 :
  emits fs_event (filesEqual_loop fuel f1 f2 buf1 buf2).
Proof.
  revert f1 f2 buf1 buf2.
  induction fuel as [|fuel IH]; intros f1 f2 buf1 buf2; simpl.
  - by apply emits_stop.
  - apply emits_bind; [eauto with emits|]. intros [[[n1 e1] b1] h1].
    apply emits_bind; [eauto with emits|]. intros [[[n2 e2] b2] h2].
    repeat emits_step.
Qed.

Lemma emits_filesEqual f1 f2 : emits fs_event (filesEqual f1 f2).
Proof. unfold filesEqual. repeat emits_step; apply emits_filesEqual_loop. Qed.

Lemma emits_mergeFiles_loop outFile paths :
  emits fs_event (mergeFiles_loop outFile paths).
Proof.
  revert outFile. induction paths as [|p paths IH]; intros outFile; simpl.
  - eauto with emits.
  - repeat emits_step.
Qed.

Lemma emits_mergeFiles paths out : emits fs_event (mergeFiles paths out).
Proof. unfold mergeFiles. repeat emits_step; apply emits_mergeFiles_loop. Qed.

#[export] Hint Resolve emits_filesEqual emits_mergeFiles : emits.

(** * main: node selection *)

Section Selection.
Variable env : sdk.

Lemma select_nodes_try_in_order fs tr :
  select_nodes env (State fs tr)
  = (State fs (tr ++ (try_in_order env strategies).1),
     match (try_in_order env strategies).2 with
     | Some nodes => Ret nodes
     | None => Exit 1
     end).
Proof.
  unfold select_nodes, SelectNodes, strategies, try_in_order, answer, attempt.
  run_prim.
  destruct (indexer_SelectNodes env "" true); simpl; [done|].
  destruct (indexer_SelectNodes env "" false); simpl;
    [by rewrite <- !app_assoc|].
  destruct (indexer_SelectNodes env "random" true); simpl;
    [by rewrite <- !app_assoc|].
  destruct (indexer_SelectNodes env "random" false); simpl;
    by rewrite <- !app_assoc.
Qed.

End Selection.

(** C5: node selection makes its attempts in the order of [strategies],
    stops with the nodes of the first one that succeeds, and exits (code
    1) only after all four have failed. *)
Theorem select_nodes_fallback (env : sdk) (fs : gmap string node)
    (tr : list event) :
  exists k o,
    select_nodes env (State fs tr)
    = (State fs (tr ++ (attempt <$> take k strategies)), o)
    /\ 1 <= k <= 4
    /\ Forall (fails env) (take (k - 1) strategies)
    /\ ((exists c nodes, strategies !! (k - 1) = Some c
                         /\ answer env c = Ok nodes /\ o = Ret nodes)
        \/ (k = 4 /\ Forall (fails env) strategies /\ o = Exit 1)).
Proof.
  unfold select_nodes, SelectNodes. run_prim.
  destruct (indexer_SelectNodes env "" true) as [n1|e1] eqn:H1; simpl.
  { exists 1, (Ret n1). split_and!; [done | lia | lia | by constructor |].
    left. by exists ("", true), n1. }
  destruct (indexer_SelectNodes env "" false) as [n2|e2] eqn:H2; simpl.
  { exists 2, (Ret n2). rewrite <- !app_assoc.
    split_and!; [done | lia | lia | |].
    - repeat constructor. by exists e1.
    - left. by exists ("", false), n2. }
  destruct (indexer_SelectNodes env "random" true) as [n3|e3] eqn:H3; simpl.
  { exists 3, (Ret n3). rewrite <- !app_assoc.
    split_and!; [done | lia | lia | |].
    - repeat constructor; by eexists.
    - left. by exists ("random", true), n3. }
  destruct (indexer_SelectNodes env "random" false) as [n4|e4] eqn:H4; simpl.
  { exists 4, (Ret n4). rewrite <- !app_assoc.
    split_and!; [done | lia | lia | |].
    - repeat constructor; by eexists.
    - left. by exists ("random", false), n4. }
  exists 4, (Exit 1). rewrite <- !app_assoc.
  split_and!; [done | lia | lia | |].
  - repeat constructor; by eexists.
  - right. split_and!; [done | | done]. repeat constructor; by eexists.
Qed.

(** * main: the upload loop *)

Section Upload.
Variable env : sdk.

Lemma upload_loop_spec (i : nat) (fragments rootHashes : list string) fs tr :
  upload_loop env i fragments rootHashes (State fs tr)
  = (State fs (tr ++ upload_events env i fragments),
     Ret (rootHashes ++ uploaded env i fragments)).
Proof.
  revert i rootHashes tr.
  induction fragments as [|path rest IH]; intros i rootHashes tr; simpl.
  - unfold ret. by rewrite !app_nil_r.
  - unfold upload_result, NewUploader, UploadFile. run_prim.
    destruct (transfer_NewUploader env i); simpl.
    { rewrite IH. by rewrite <- app_assoc. }
    destruct (uploader_UploadFile env i path) as [[txHash rootHash]|]; simpl;
      rewrite IH; by rewrite <- !app_assoc.
Qed.

Lemma length_uploaded (i : nat) (fragments : list string) :
  length (uploaded env i fragments) <= length fragments.
Proof.
  revert i. induction fragments as [|path rest IH]; intros i; simpl; [done|].
  destruct (upload_result env i path); simpl; specialize (IH (S i)); lia.
Qed.

Lemma count_NewUploader (i : nat) (fragments : list string) :
  length (List.filter is_NewUploader (upload_events env i fragments))
  = length fragments.
Proof.
  revert i. induction fragments as [|path rest IH]; intros i; simpl; [done|].
  destruct (transfer_NewUploader env i); simpl; by rewrite IH.
Qed.

End Upload.

(** * main: download, merge and the whole pipeline *)

Lemma downloads_of_app tr1 tr2 :
  downloads_of (tr1 ++ tr2) = downloads_of tr1 ++ downloads_of tr2.
Proof. apply omap_app. Qed.

Lemma downloads_of_fs evs : Forall fs_event evs -> downloads_of evs = [].
Proof.
  induction 1 as [|e evs He _ IH]; [done|].
  destruct e; try done; exact IH.
Qed.

Lemma emits_downloads {A} (m : M A) st st' (o : outcome A) :
  emits fs_event m -> m st = (st', o) ->
  downloads_of (trace st') = downloads_of (trace st).
Proof.
  intros Hm Hrun. destruct (Hm st) as (evs & Htr & Hevs).
  rewrite Hrun in Htr. simpl in Htr.
  by rewrite Htr, downloads_of_app, (downloads_of_fs evs Hevs), app_nil_r.
Qed.

Section Pipeline.
Variable env : sdk.

Lemma Download_cases (i : nat) (root path : string) (st : state) :
  exists st' err,
    Download env i root path st = (st', Ret err)
    /\ downloads_of (trace st') = downloads_of (trace st) ++ [(root, path)].
Proof.
  unfold Download. unfold bind, emit. simpl.
  destruct (downloader_Download env i root) as [data|e].
  - destruct (os_WriteFile_cases path data
                (State (files st) (trace st ++ [EvDownload root path])))
      as [[e ->]| ->]; eexists _, _; (split; [done|]); simpl;
      by rewrite !downloads_of_app, app_nil_r.
  - eexists _, _. split; [done|]. simpl.
    by rewrite !downloads_of_app.
Qed.

Lemma download_loop_spec (fragments rootHashes : list string) (i : nat)
    (downloadedFiles : list string) (st : state) :
  i + length rootHashes <= length fragments ->
  exists st' dl,
    download_loop env fragments i rootHashes downloadedFiles st = (st', Ret dl)
    /\ downloads_of (trace st')
       = downloads_of (trace st)
         ++ imap (fun j root => (root, downloaded_name (i + j))) rootHashes.
Proof.
  revert i downloadedFiles st.
  induction rootHashes as [|root rest IH]; intros i acc st Hlen; simpl in *.
  { eexists _, _. split; [done|]. by rewrite app_nil_r. }
  assert (forall st1 acc1,
            downloads_of (trace st1)
            = downloads_of (trace st) ++ [(root, downloaded_name i)] ->
            exists st' dl,
              download_loop env fragments (S i) rest acc1 st1 = (st', Ret dl)
              /\ downloads_of (trace st')
                 = downloads_of (trace st)
                   ++ (root, downloaded_name (i + 0))
                      :: imap ((fun j root => (root, downloaded_name (i + j)))
                               ∘ S) rest) as Hnext.
  { intros st1 acc1 Htr. destruct (IH (S i) acc1 st1) as (st' & dl & -> & Hd);
      [lia|]. exists st', dl. split; [done|].
    rewrite Hd, Htr, <- app_assoc, Nat.add_0_r. simpl. do 2 f_equal.
    apply imap_ext. intros j root' _. simpl. do 2 f_equal. lia. }
  unfold bind at 1.
  destruct (Download_cases i root (downloaded_name i) st)
    as (st1 & err & -> & Htr).
  destruct err as [e|]; [by apply Hnext|].
  destruct (lookup_lt_is_Some_2 fragments i ltac:(lia)) as [orig ->].
  unfold bind at 1.
  destruct (returns_filesEqual orig (downloaded_name i) st1)
    as (st2 & b & Heq).
  rewrite Heq. apply Hnext.
  by rewrite (emits_downloads _ _ _ _ (emits_filesEqual _ _) Heq).
Qed.

Lemma returns_merge_stage large dl : returns (merge_stage large dl).
Proof. unfold merge_stage. repeat returns_step. Qed.

Lemma emits_merge_stage large dl : emits fs_event (merge_stage large dl).
Proof. unfold merge_stage. repeat emits_step. Qed.

Lemma uploaded_omap (i : nat) (fragments : list string) :
  uploaded env i fragments
  = omap id (imap (fun j => upload_result env (i + j)) fragments).
Proof.
  revert i. induction fragments as [|path rest IH]; intros i; simpl; [done|].
  rewrite Nat.add_0_r, IH.
  assert (imap (fun j => upload_result env (S i + j)) rest
          = imap ((fun j => upload_result env (i + j)) ∘ S) rest) as ->.
  { apply imap_ext. intros j p _. simpl. f_equal. lia. }
  by destruct (upload_result env i path).
Qed.

Lemma try_in_order_events (l : list (string * bool)) :
  Forall (fun e => exists m t, e = EvSelectNodes m t) (try_in_order env l).1.
Proof.
  induction l as [|c rest IH]; simpl; [done|].
  destruct (answer env c); simpl.
  - repeat constructor. by eexists _, _.
  - destruct (try_in_order env rest). simpl in *. constructor; [|done].
    by eexists _, _.
Qed.

End Pipeline.

Lemma NewDownloader_eq env nodes fs tr :
  NewDownloader env nodes (State fs tr)
  = (State fs (tr ++ [EvNewDownloader]), Ret (transfer_NewDownloader env nodes)).
Proof. done. Qed.

Lemma downloads_of_select env (l : list (string * bool)) :
  downloads_of (try_in_order env l).1 = [].
Proof.
  pose proof (try_in_order_events env l) as H.
  induction H as [|e evs (m & t & ->) _ IH]; [done | exact IH].
Qed.

Lemma downloads_of_upload env (i : nat) (fragments : list string) :
  downloads_of (upload_events env i fragments) = [].
Proof.
  revert i. induction fragments as [|p rest IH]; intros i; simpl; [done|].
  destruct (transfer_NewUploader env i); apply IH.
Qed.

Lemma downloaded_name_inj (i j : nat) :
  downloaded_name i = downloaded_name j -> i = j.
Proof.
  unfold downloaded_name. intros H. apply filepath_Join_inj in H; [|done..].
  apply (inj (String.app "downloaded_part_")), string_app_inj_r in H.
  by apply (inj pretty) in H.
Qed.

Lemma mergedPath_not_downloaded (j : nat) : mergedPath <> downloaded_name j.
Proof.
  unfold downloaded_name, mergedPath.
  intros H%filepath_Join_inj; [|done..]. simpl in H. done.
Qed.

Section Downloads.
Variable env : sdk.

Lemma fetched_index (i : nat) (roots : list string) (j : nat) (d : list byte) :
  (j, d) ∈ fetched env i roots -> i <= j < i + length roots.
Proof.
  revert i. induction roots as [|root rest IH]; intros i; simpl.
  { by intros ?%elem_of_nil. }
  destruct (downloader_Download env i root).
  - intros [[= -> ->]|Hin%IH]%elem_of_cons; lia.
  - intros Hin%IH. lia.
Qed.

Lemma Download_ok (i : nat) (root path : string) (data : list byte) fs tr :
  downloader_Download env i root = Ok data ->
  is_dir (fs !! path) = false ->
  Download env i root path (State fs tr)
  = (State (<[path := File data]> fs)
       ((tr ++ [EvDownload root path]) ++ [EvWriteFile path]), Ret None).
Proof.
  intros Hd Hp. unfold Download. unfold bind at 1, emit at 1. rewrite Hd.
  by rewrite os_WriteFile_ok.
Qed.

Lemma Download_err (i : nat) (root path : string) (e : error) fs tr :
  downloader_Download env i root = Err e ->
  Download env i root path (State fs tr)
  = (State fs (tr ++ [EvDownload root path]), Ret (Some e)).
Proof. intros Hd. unfold Download. unfold bind at 1, emit at 1. by rewrite Hd. Qed.

Lemma download_loop_files (fragments roots : list string) (i : nat)
    (acc : list string) fs tr :
  i + length roots <= length fragments ->
  (forall j, i <= j < i + length roots ->
             is_dir (fs !! downloaded_name j) = false) ->
  exists st',
    download_loop env fragments i roots acc (State fs tr)
    = (st', Ret (acc ++ ((fun jd => downloaded_name jd.1)
                         <$> fetched env i roots)))
    /\ (forall j d, (j, d) ∈ fetched env i roots ->
          files st' !! downloaded_name j = Some (File d))
    /\ (forall p, (forall j d, (j, d) ∈ fetched env i roots ->
                               p <> downloaded_name j) ->
          files st' !! p = fs !! p).
Proof.
  revert i acc fs tr.
  induction roots as [|root rest IH]; intros i acc fs tr Hlen Hfree; simpl in *.
  { eexists. split; [by rewrite app_nil_r|]. split; [|done].
    by intros j d ?%elem_of_nil. }
  unfold bind at 1.
  destruct (downloader_Download env i root) as [data|e] eqn:Hd.
  - rewrite (Download_ok _ _ _ data) by (done || (apply Hfree; lia)).
    destruct (lookup_lt_is_Some_2 fragments i ltac:(lia)) as [orig ->].
    unfold bind at 1.
    match goal with
    | |- context [filesEqual orig ?p (State ?f ?t)] =>
        destruct (filesEqual_spec f orig p t) as (tr' & b & -> & _)
    end.
    destruct (IH (S i) (acc ++ [downloaded_name i])
                (<[downloaded_name i := File data]> fs) tr')
      as (st' & -> & Hnew & Hold); [lia | |].
    { intros j Hj. rewrite lookup_insert_ne; [apply Hfree; lia|].
      intros ?%downloaded_name_inj. lia. }
    exists st'. split; [by rewrite <- app_assoc|]. split.
    + intros j d [[= -> ->]|Hin]%elem_of_cons; [|by apply Hnew].
      rewrite Hold; [by rewrite lookup_insert_eq|].
      intros j d Hin%fetched_index ?%downloaded_name_inj. lia.
    + intros p Hp. rewrite Hold.
      * rewrite lookup_insert_ne; [done|]. intros <-.
        apply (Hp i data); [apply elem_of_cons; by left | done].
      * intros j d Hin. apply (Hp j d). apply elem_of_cons. by right.
  - rewrite (Download_err _ _ _ e) by done.
    destruct (IH (S i) acc fs (tr ++ [EvDownload root (downloaded_name i)]))
      as (st' & -> & Hnew & Hold); [lia | |].
    { intros j Hj. apply Hfree. lia. }
    by exists st'.
Qed.

End Downloads.

(** The pipeline returns when selection and the downloader succeed, and
    its downloads are those of the uploaded roots. *)
Lemma pipeline_downloads (env : sdk) (fs : gmap string node)
    (tr : list event) (large : string) (fragments : list string)
    (nodes : SelectedNodes) :
  (try_in_order env strategies).2 = Some nodes ->
  Trusted nodes ++ Discovered nodes <> [] ->
  transfer_NewDownloader env (Trusted nodes ++ Discovered nodes) = None ->
  exists st',
    pipeline env large fragments (State fs tr) = (st', Ret tt)
    /\ downloads_of (trace st')
       = downloads_of tr
         ++ imap (fun j root => (root, downloaded_name j))
              (uploaded env 0 fragments).
Proof.
  intros Hsel Hnodes Hdl.
  unfold pipeline. unfold bind at 1.
  rewrite select_nodes_try_in_order, Hsel.
  rewrite decide_False by (by destruct (Trusted nodes ++ Discovered nodes)).
  unfold bind at 1. rewrite upload_loop_spec. cbn [app].
  unfold bind at 1. rewrite NewDownloader_eq, Hdl.
  unfold bind at 1.
  edestruct (download_loop_spec env fragments (uploaded env 0 fragments) 0 [])
    as (st1 & dl & -> & Hd1).
  { pose proof (length_uploaded env 0 fragments). simpl. lia. }
  destruct (returns_merge_stage large dl st1) as (st2 & [] & Hm).
  exists st2. split; [done|].
  rewrite (emits_downloads _ _ _ _ (emits_merge_stage _ _) Hm), Hd1.
  cbn [trace].
  rewrite !downloads_of_app, downloads_of_select, downloads_of_upload.
  cbn [downloads_of omap]. by rewrite !app_nil_r.
Qed.

(** What the pipeline leaves on disk when selection and the downloader
    succeed and the names of the downloads and of the merged file are
    free. *)
Lemma pipeline_merge_result (env : sdk) (fs : gmap string node)
    (tr : list event) (large : string) (fragments : list string)
    (nodes : SelectedNodes) :
  (try_in_order env strategies).2 = Some nodes ->
  Trusted nodes ++ Discovered nodes <> [] ->
  transfer_NewDownloader env (Trusted nodes ++ Discovered nodes) = None ->
  (forall j, j < length (uploaded env 0 fragments) ->
             is_dir (fs !! downloaded_name j) = false) ->
  is_dir (fs !! mergedPath) = false ->
  let got := fetched env 0 (uploaded env 0 fragments) in
  exists st',
    pipeline env large fragments (State fs tr) = (st', Ret tt)
    /\ (got <> [] ->
        files st' !! mergedPath = Some (File (concat (snd <$> got))))
    /\ (got = [] -> files st' = fs)
    /\ (forall p, p <> mergedPath -> (forall j, p <> downloaded_name j) ->
          files st' !! p = fs !! p).
Proof.
  intros Hsel Hnodes Hdl Hfree Hmerged got.
  unfold pipeline. unfold bind at 1.
  rewrite select_nodes_try_in_order, Hsel.
  rewrite decide_False by (by destruct (Trusted nodes ++ Discovered nodes)).
  unfold bind at 1. rewrite upload_loop_spec. cbn [app].
  unfold bind at 1. rewrite NewDownloader_eq, Hdl.
  unfold bind at 1.
  match goal with
  | |- context [download_loop env fragments 0 _ [] (State fs ?t)] =>
      destruct (download_loop_files env fragments (uploaded env 0 fragments)
                  0 [] fs t) as ([fs1 tr1] & -> & Hnew & Hold)
  end.
  { pose proof (length_uploaded env 0 fragments). simpl. lia. }
  { intros j Hj. apply Hfree. lia. }
  fold got in Hnew, Hold |- *. cbn [app files] in *.
  unfold merge_stage. fold mergedPath. rewrite length_fmap.
  destruct got as [|[j0 d0] rest] eqn:Hgot.
  { simpl. eexists. split; [done|]. split; [done|]. split.
    - intros _. apply map_eq. intros p. apply Hold.
      by intros j d ?%elem_of_nil.
    - intros p _ Hp. simpl. apply Hold. intros j d _. apply Hp. }
  rewrite decide_True by (simpl; lia). rewrite <- Hgot in *.
  pose proof mergedPath_not_downloaded as Hne.
  destruct (mergeFiles_ok mergedPath
              ((fun jd => downloaded_name jd.1) <$> got) (snd <$> got)
              fs1 tr1) as [tr2 Hmerge].
  { apply Forall2_fmap, Forall_Forall2_diag, Forall_forall.
    intros [j d] Hin. by apply Hnew. }
  { intros ([j d] & Heq & _)%list_elem_of_fmap. by apply (Hne j). }
  { rewrite Hold; [done|]. intros j d _. apply Hne. }
  unfold bind at 1. rewrite Hmerge. unfold bind at 1.
  match goal with
  | |- context [filesEqual large mergedPath (State ?f ?t)] =>
      destruct (filesEqual_spec f large mergedPath t) as (tr3 & b & -> & _)
  end.
  eexists. split; [done|]. split; [|split; [by rewrite Hgot|]].
  - intros _. simpl. by rewrite lookup_insert_eq.
  - intros p Hpm Hp. simpl. rewrite lookup_insert_ne by done.
    apply Hold. intros j d _. apply Hp.
Qed.

(** C6: a fragment whose uploader or upload fails adds nothing to the root
    hashes and the loop goes on to the next fragment (one uploader is
    requested per fragment); the loop always returns.  When node selection
    and the downloader succeed, the run goes through download and merge to
    the end: the downloads attempted are those of the uploaded roots,
    numbered by their position among them, and (the names of the downloads
    and of the merged file being free) the merged file is made of the
    bytes fetched for the uploaded roots and of nothing else. *)
Theorem upload_failures_skipped (env : sdk) (fs : gmap string node)
    (tr : list event) (largeFileName : string) (fragments : list string)
    (nodes : SelectedNodes) :
  (try_in_order env strategies).2 = Some nodes ->
  Trusted nodes ++ Discovered nodes <> [] ->
  transfer_NewDownloader env (Trusted nodes ++ Discovered nodes) = None ->
  upload_loop env 0 fragments [] (State fs tr)
  = (State fs (tr ++ upload_events env 0 fragments),
     Ret (uploaded env 0 fragments))
  /\ uploaded env 0 fragments
     = omap id (imap (upload_result env) fragments)
  /\ length (List.filter is_NewUploader (upload_events env 0 fragments))
     = length fragments
  /\ exists st',
       pipeline env largeFileName fragments (State fs tr) = (st', Ret tt)
       /\ downloads_of (trace st')
          = downloads_of tr
            ++ imap (fun j root => (root, downloaded_name j))
                 (uploaded env 0 fragments)
       /\ ((forall j, j < length (uploaded env 0 fragments) ->
                      is_dir (fs !! downloaded_name j) = false) ->
           is_dir (fs !! mergedPath) = false ->
           let got := fetched env 0 (uploaded env 0 fragments) in
           (got <> [] ->
            files st' !! mergedPath = Some (File (concat (snd <$> got))))
           /\ (got = [] -> files st' = fs)).
Proof.
  intros Hsel Hnodes Hdl. split_and!.
  - apply upload_loop_spec.
  - apply (uploaded_omap env 0).
  - apply count_NewUploader.
  - destruct (pipeline_downloads env fs tr largeFileName fragments nodes
                Hsel Hnodes Hdl) as (st' & Hrun & Hdown).
    exists st'. split_and!; [exact Hrun | exact Hdown |].
    intros Hfree Hmerged got.
    destruct (pipeline_merge_result env fs tr largeFileName fragments nodes
                Hsel Hnodes Hdl Hfree Hmerged)
      as (st2 & Hrun2 & Hsome & Hnone & _).
    rewrite Hrun in Hrun2. injection Hrun2 as <-. by split.
Qed.

(** C8: for an empty source, [generateRandomFile] leaves an empty file,
    [splitFile] returns the empty sequence without error, and the rest of
    main requests no uploader, uploads and downloads nothing and skips the
    merge: it touches no file and only selects nodes and creates the
    downloader; when these two succeed it ends without error. *)
Theorem empty_source_pipeline (env : sdk) (fs : gmap string node)
    (tr : list event) (src outDir : string) (F : Z) :
  (0 < F)%Z ->
  fs !! src = Some (File []) ->
  splitFile src F outDir (State fs tr)
  = (State fs (tr ++ [EvOpen src; EvRead src]), Ret (Ok []))
  /\ (exists evs o,
        pipeline env src [] (State fs tr) = (State fs (tr ++ evs), o)
        /\ Forall (fun e => (exists m t, e = EvSelectNodes m t)
                            \/ e = EvNewDownloader) evs
        /\ (forall nodes,
              (try_in_order env strategies).2 = Some nodes ->
              Trusted nodes ++ Discovered nodes <> [] ->
              transfer_NewDownloader env (Trusted nodes ++ Discovered nodes)
              = None ->
              o = Ret tt))
  /\ (forall rand p tr0 fs0,
        is_dir (fs0 !! p) = false ->
        generateRandomFile rand p 0 (State fs0 tr0)
        = (State (<[p := File []]> fs0) (tr0 ++ [EvCreate p; EvWrite p]),
           Ret None)).
Proof.
  intros HF Hsrc. split_and!.
  - unfold splitFile. unfold bind at 1.
    rewrite (os_Open_some _ _ _ (File [])) by done.
    rewrite decide_False by lia. rewrite bind_get_files. cbn [files].
    rewrite Hsrc. cbn [node_size length splitFile_loop]. unfold bind at 1.
    rewrite (file_Read_eof _ _ _ _ _ []);
      [| done | rewrite length_replicate; lia | simpl; lia].
    cbn [is_EOF]. unfold ret. by rewrite <- app_assoc.
  - unfold pipeline. unfold bind at 1. rewrite select_nodes_try_in_order.
    pose proof (try_in_order_events env strategies) as Hsev.
    destruct (try_in_order env strategies) as [sel [nodes|]]; cbn [fst snd] in *.
    2:{ exists sel, (Exit 1). split_and!; [done | | done].
        eapply Forall_impl; [exact Hsev | by left]. }
    case_decide as Hz.
    { exists sel, (Exit 1). split_and!; [done | |].
      - eapply Forall_impl; [exact Hsev | by left].
      - intros ? [= <-] Hne. by destruct (Trusted nodes ++ Discovered nodes). }
    unfold bind at 1. rewrite upload_loop_spec. cbn [upload_events uploaded app].
    rewrite app_nil_r. unfold bind at 1. rewrite NewDownloader_eq.
    assert (Forall (fun e => (exists m t, e = EvSelectNodes m t)
                             \/ e = EvNewDownloader) (sel ++ [EvNewDownloader]))
      as Hevs.
    { apply Forall_app. split; [|by repeat constructor; right].
      eapply Forall_impl; [exact Hsev | by left]. }
    destruct (transfer_NewDownloader env _) as [e|] eqn:Hd.
    + exists (sel ++ [EvNewDownloader]), (Exit 1). rewrite app_assoc.
      split_and!; [done | done |]. intros ? [= <-] _. by rewrite Hd.
    + exists (sel ++ [EvNewDownloader]), (Ret tt). rewrite app_assoc.
      split_and!; done.
  - intros rand p tr0 fs0 Hp. unfold generateRandomFile. unfold bind at 1.
    rewrite os_Create_ok by done. unfold io_CopyN. cbn [Z.to_nat take].
    unfold bind at 1, bind at 1.
    rewrite (file_Write_append _ _ _ [] []) by apply lookup_insert_eq.
    cbn [length]. rewrite decide_False by lia.
    unfold ret. by rewrite insert_insert_eq, <- app_assoc.
Qed.

(** C10: on an empty list [mergeFiles] still creates the output, empty,
    and returns nil; the merge stage of main, on an empty list of
    downloads, does not call it and leaves state and trace as they are. *)
Theorem mergeFiles_empty_list (fs : gmap string node) (tr : list event)
    (out largeFileName : string) :
  is_dir (fs !! out) = false ->
  mergeFiles [] out (State fs tr)
  = (State (<[out := File []]> fs) (tr ++ [EvCreate out]), Ret None)
  /\ merge_stage largeFileName [] (State fs tr) = (State fs tr, Ret tt).
Proof.
  intros Hout. split; [|done].
  unfold mergeFiles. unfold bind at 1. by rewrite os_Create_ok.
Qed.

(** * main: deferred cleanup and fatal exits *)

Lemma with_defer_exit {A} (cleanup : M unit) (body : M A) st st' code :
  body st = (st', Exit code) -> with_defer cleanup body st = (st', Exit code).
Proof. intros H. unfold with_defer. by rewrite H. Qed.

Lemma with_defer_RemoveAll_ret {A} (dir : string) (body : M A) st st' a :
  body st = (st', Ret a) ->
  with_defer (os_RemoveAll dir) body st
  = (State (filter (fun kv => under dir kv.1 = false) (files st'))
       (trace st' ++ [EvRemoveAll dir]), Ret a).
Proof. intros H. unfold with_defer. by rewrite H. Qed.

(** C4 fails on the code: when all four node selections fail, [main] ends
    through [log.Fatalf] with exit code 1, the deferred [os.RemoveAll] has
    not run, and the work directory still holds the source file and its
    four chunks. *)
Theorem main_fatal_keeps_workDir :
  (main (mock_sdk false None) (State ∅ [])).2 = Exit 1
  /\ Forall (fun e => e <> EvRemoveAll workDir)
       (trace (main (mock_sdk false None) (State ∅ [])).1)
  /\ Forall (fun p => is_Some (files (main (mock_sdk false None) (State ∅ [])).1 !! p))
       (workDir :: filepath_Join workDir "large_data_1kb.bin"
        :: (part_name workDir <$> seq 0 4)).
Proof.
  split_and!.
  - by vm_compute.
  - vm_compute. repeat constructor; discriminate.
  - vm_compute. repeat constructor; by eexists.
Qed.

(** The same environment with reachable nodes: main returns and nothing
    of the work directory is left. *)
Example main_normal_run_cleans :
  (main (mock_sdk true None) (State ∅ [])).2 = Ret tt
  /\ files (main (mock_sdk true None) (State ∅ [])).1 = ∅.
Proof. split; by vm_compute. Qed.

(** * The theorems at concrete inputs *)

(** 1000 bytes cut at 256: three full chunks and one of 232 bytes. *)
Example split_1000_by_256 :
  let st := State {["src" := File (replicate 1000 x2a)]} [] in
  (splitFile "src" 256 "out" st).2 = Ret (Ok (part_name "out" <$> seq 0 4))
  /\ contents (files (splitFile "src" 256 "out" st).1)
       (part_name "out" <$> seq 0 4)
     = Some [replicate 256 x2a; replicate 256 x2a; replicate 256 x2a;
             replicate 232 x2a].
Proof. split; by vm_compute. Qed.

(** Why [names_free] asks that the source is not a chunk file: a source
    stored under the name of chunk 0 is overwritten by its first chunk,
    and the next read finds the end of the file. *)
Example splitFile_source_overwritten :
  let st := State {["out/part_0.bin" := File five]} [] in
  (splitFile "out/part_0.bin" 2 "out" st).2 = Ret (Ok ["out/part_0.bin"])
  /\ files (splitFile "out/part_0.bin" 2 "out" st).1 !! "out/part_0.bin"
     = Some (File [x01; x02]).
Proof. split; by vm_compute. Qed.

(** A download that comes back with one byte changed fails the check. *)
Example filesEqual_detects_flipped_byte :
  let fs : gmap string node :=
    {["a" := File five; "b" := File [x01; x02; x07; x04; x05]]} in
  (filesEqual "a" "b" (State fs [])).2 = Ret false.
Proof. by vm_compute. Qed.

Lemma names_free_five : names_free fs_five "src" "out" (ceil_div (length five) 2).
Proof.
  intros j Hj. change (ceil_div (length five) 2) with 3 in Hj.
  destruct j as [|[|[|j]]]; [by vm_compute..|lia].
Defined.

Lemma splitFile_chunks_witness :
  exists st' paths chunks,
    splitFile "src" 2 "out" (State fs_five []) = (st', Ret (Ok paths))
    /\ paths = ["out/part_0.bin"; "out/part_1.bin"; "out/part_2.bin"]
    /\ contents (files st') paths = Some chunks
    /\ length chunks = 3
    /\ sum_list (length <$> chunks) = 5.
Proof.
  destruct (splitFile_chunks fs_five [] "src" "out" five 2
              ltac:(lia) eq_refl names_free_five)
    as (st' & paths & chunks & Hrun & Hpaths & Hcont & Hlen & _ & _ & _ & Hsum).
  by exists st', paths, chunks.
Defined.

Lemma split_merge_roundtrip_witness :
  exists st1 paths st2,
    splitFile "src" 2 "out" (State fs_five []) = (st1, Ret (Ok paths))
    /\ mergeFiles paths "merged" st1 = (st2, Ret None)
    /\ files st2 !! "merged" = Some (File five).
Proof.
  apply (split_merge_roundtrip fs_five [] "src" "out" "merged" five 2);
    [lia | reflexivity | exact names_free_five | | reflexivity].
  intros j Hj. change (ceil_div (length five) 2) with 3 in Hj.
  destruct j as [|[|[|j]]]; [by vm_compute..|lia].
Defined.

Lemma filesEqual_verdict_witness :
  exists tr' b,
    filesEqual "src" "copy" (State (<["copy" := File five]> fs_five) [])
    = (State (<["copy" := File five]> fs_five) tr', Ret b)
    /\ b = true.
Proof.
  destruct (filesEqual_verdict (<["copy" := File five]> fs_five) [] "src" "copy")
    as (tr' & b & Hrun & _ & Hsame & _).
  exists tr', b. split; [exact Hrun|].
  by apply (Hsame five five).
Defined.

Lemma mergeFiles_aborts_witness :
  mergeFiles ["src"] "merged" (State fs_five_dir [])
  = (State fs_five_dir [EvCreate "merged"], Ret (Some (EISDIR "merged")))
  /\ exists tr' e,
       mergeFiles ["src"; "missing"; "later"] "merged" (State fs_five [])
       = (State (<["merged" := File five]> fs_five) tr', Ret (Some e))
       /\ io_error e = true.
Proof.
  split.
  - apply (mergeFiles_aborts fs_five_dir [] "merged" ["src"]). reflexivity.
  - destruct (mergeFiles_aborts fs_five [] "merged" ["src"; "missing"; "later"])
      as [_ Hfile].
    destruct (Hfile ["src"] ["later"] "missing" [five]) as (tr' & e & Hrun & He).
    + reflexivity.
    + apply not_elem_of_cons. split; [done | apply not_elem_of_nil].
    + done.
    + reflexivity.
    + by left.
    + reflexivity.
    + exists tr', e. split; [exact Hrun | exact He].
Defined.

Lemma upload_failures_skipped_witness :
  uploaded (mock_sdk true (Some 1)) 0 (part_name workDir <$> seq 0 4)
  = ["root0"; "root2"; "root3"]
  /\ exists st',
       pipeline (mock_sdk true (Some 1)) "temp_data/large_data_1kb.bin"
         (part_name workDir <$> seq 0 4) (State ∅ []) = (st', Ret tt)
       /\ files st' !! mergedPath = Some (File (replicate 768 x2a)).
Proof.
  split; [reflexivity|].
  destruct (upload_failures_skipped (mock_sdk true (Some 1)) ∅ []
              "temp_data/large_data_1kb.bin" (part_name workDir <$> seq 0 4)
              mock_nodes eq_refl ltac:(done) eq_refl)
    as (_ & _ & _ & st' & Hrun & _ & Hmerge).
  exists st'. split; [exact Hrun|].
  destruct Hmerge as [Hsome _]; [by intros j _ | reflexivity |].
  rewrite Hsome; [by vm_compute | by vm_compute].
Defined.

Lemma empty_source_pipeline_witness :
  splitFile "src" 256 "out" (State fs_empty_src [])
  = (State fs_empty_src [EvOpen "src"; EvRead "src"], Ret (Ok [])).
Proof.
  apply (empty_source_pipeline (mock_sdk true None) fs_empty_src []
           "src" "out" 256); [lia | reflexivity].
Defined.

Lemma splitFile_chunks_nonempty_witness :
  exists st' r,
    splitFile "src" 2 "out" (State fs_five []) = (st', Ret r)
    /\ forall paths, r = Ok paths -> Forall (nonempty_file (files st')) paths.
Proof. apply (splitFile_chunks_nonempty "src" "out" 2); lia. Defined.

Lemma mergeFiles_empty_list_witness :
  mergeFiles [] "merged" (State ∅ [])
  = (State {["merged" := File []]} [EvCreate "merged"], Ret None)
  /\ merge_stage "large" [] (State ∅ []) = (State ∅ [], Ret tt).
Proof. apply (mergeFiles_empty_list ∅ [] "merged" "large"). reflexivity. Defined.

(** * Further properties: the same functions on their other paths *)

(** * generateRandomFile *)

(** X1: on a path that can be created and with enough entropy,
    [generateRandomFile] replaces whatever the path held by a file of the
    first [size] bytes of the entropy source (none for [size <= 0]) and
    returns nil. *)
Theorem generateRandomFile_ok (rand : list byte) (p : string) (size : Z)
    (fs : gmap string node) (tr : list event) :
  is_dir (fs !! p) = false ->
  Z.to_nat size <= length rand ->
  generateRandomFile rand p size (State fs tr)
  = (State (<[p := File (take (Z.to_nat size) rand)]> fs)
       (tr ++ [EvCreate p; EvWrite p]), Ret None)
  /\ length (take (Z.to_nat size) rand) = Z.to_nat size.
Proof.
  intros Hp Hlen. split; [|rewrite length_take; lia].
  unfold generateRandomFile. unfold bind at 1.
  rewrite os_Create_ok by done. unfold io_CopyN.
  unfold bind at 1, bind at 1.
  rewrite (file_Write_append _ _ _ [] (take (Z.to_nat size) rand))
    by apply lookup_insert_eq.
  cbn [length app]. rewrite decide_False by (rewrite length_take; lia).
  unfold ret. by rewrite insert_insert_eq, <- app_assoc.
Qed.

(** X2: [generateRandomFile] returns the error of [os.Create] and changes
    nothing when the path is a directory; when the entropy source ends
    before [size] bytes it returns [io.EOF] and leaves the bytes written
    so far in the file. *)
Theorem generateRandomFile_fails (rand : list byte) (p : string) (size : Z)
    (fs : gmap string node) (tr : list event) :
  (is_dir (fs !! p) = true ->
     generateRandomFile rand p size (State fs tr)
     = (State fs (tr ++ [EvCreate p]), Ret (Some (EISDIR p))))
  /\ (is_dir (fs !! p) = false -> length rand < Z.to_nat size ->
     generateRandomFile rand p size (State fs tr)
     = (State (<[p := File rand]> fs) (tr ++ [EvCreate p; EvWrite p]),
        Ret (Some EOF))).
Proof.
  split.
  - intros Hd. destruct (fs !! p) as [[|sz]|] eqn:Hp; try done.
    unfold generateRandomFile. unfold bind at 1.
    by rewrite (os_Create_dir _ _ _ sz).
  - intros Hp Hlen. unfold generateRandomFile. unfold bind at 1.
    rewrite os_Create_ok by done. unfold io_CopyN.
    unfold bind at 1, bind at 1.
    rewrite (file_Write_append _ _ _ [] (take (Z.to_nat size) rand))
      by apply lookup_insert_eq.
    cbn [length app]. rewrite take_ge by lia.
    rewrite decide_True by lia.
    unfold ret. by rewrite insert_insert_eq, <- app_assoc.
Qed.

(** * splitFile: errors, and what it leaves alone *)

Lemma file_Read_error (f : handle) (buf : list byte) (st : state) :
  exists n err buf' f',
    file_Read f buf st
    = (State (files st) (trace st ++ [EvRead (h_path f)]),
       Ret (n, err, buf', f'))
    /\ forall e, err = Some e -> io_error e = true.
Proof.
  destruct f as [p off], st as [fs tr]. unfold file_Read. run_prim.
  destruct (fs !! p) as [[data|sz]|].
  - repeat case_decide; eexists _, _, _, _; (split; [done|]);
      by intros e [= <-].
  - eexists _, _, _, _. split; [done|]. by intros e [= <-].
  - eexists _, _, _, _. split; [done|]. by intros e [= <-].
Qed.

Lemma os_WriteFile_error (p : string) (data : list byte) (st : state) :
  (is_dir (files st !! p) = true
   /\ os_WriteFile p data st
      = (State (files st) (trace st ++ [EvWriteFile p]),
         Ret (Some (EISDIR p))))
  \/ os_WriteFile p data st
     = (State (<[p := File data]> (files st)) (trace st ++ [EvWriteFile p]),
        Ret None).
Proof.
  destruct st as [fs tr]. unfold os_WriteFile. run_prim.
  destruct (fs !! p) as [[|]|]; eauto.
Qed.

Lemma splitFile_loop_frame (outDir : string) (fuel : nat) (f : handle)
    (buf : list byte) (i : nat) acc st st' o :
  splitFile_loop fuel f buf outDir i acc st = (st', o) ->
  (forall p, (forall j, p <> part_name outDir j) ->
             files st' !! p = files st !! p)
  /\ (forall e, o = Ret (Err e) -> io_error e = true /\ is_EOF e = false).
Proof.
  revert f buf i acc st.
  induction fuel as [|fuel IH]; intros f buf i acc st; simpl.
  { intros [= <- <-]. done. }
  unfold bind at 1.
  destruct (file_Read_error f buf st) as (n & err & buf' & f' & -> & Herr).
  simpl. destruct err as [e|].
  { destruct (is_EOF e) eqn:He; intros [= <- <-]; split; try done.
    intros e' [= <-]. split; [by apply Herr | done]. }
  case_decide; [intros [= <- <-]; done|].
  unfold bind at 1.
  destruct (os_WriteFile_error (part_name outDir i) (take n buf')
              (State (files st) (trace st ++ [EvRead (h_path f)])))
    as [[_ ->]| ->].
  { intros [= <- <-]. split; [done|]. by intros e' [= <-]. }
  intros Hrun. destruct (IH _ _ _ _ _ Hrun) as [Hframe Hkind].
  split; [|done]. intros p Hp. rewrite Hframe by done. simpl.
  by rewrite lookup_insert_ne.
Qed.

(** X3: however [splitFile] ends, the only paths whose content can
    differ afterwards are chunk names [outDir/part_<j>.bin]; an error it
    returns is a file-system error and never [io.EOF]. *)
Theorem splitFile_frame (src outDir : string) (F : Z) (st st' : state)
    (o : outcome (result (list string))) :
  splitFile src F outDir st = (st', o) ->
  (forall p, (forall j, p <> part_name outDir j) ->
             files st' !! p = files st !! p)
  /\ (forall e, o = Ret (Err e) -> io_error e = true /\ is_EOF e = false).
Proof.
  destruct st as [fs tr]. unfold splitFile. unfold bind at 1.
  destruct (fs !! src) as [nd|] eqn:Hsrc.
  2:{ rewrite os_Open_none by done. intros [= <- <-]. split; [done|].
      by intros e [= <-]. }
  rewrite (os_Open_some _ _ _ nd) by done.
  case_decide; [intros [= <- <-]; done|].
  rewrite bind_get_files. intros Hrun.
  by apply splitFile_loop_frame in Hrun.
Qed.

(** X4: with a chunk size [F > 0], a source that does not exist or is a
    directory makes [splitFile] return a file-system error with no file
    written. *)
Theorem splitFile_unreadable_source (src outDir : string) (F : Z)
    (fs : gmap string node) (tr : list event) :
  (0 < F)%Z ->
  fs !! src = None \/ is_dir (fs !! src) = true ->
  exists tr' e,
    splitFile src F outDir (State fs tr) = (State fs tr', Ret (Err e))
    /\ io_error e = true.
Proof.
  intros HF [Hnone|Hdir]; unfold splitFile; unfold bind at 1.
  - rewrite os_Open_none by done. by eexists _, _.
  - destruct (fs !! src) as [[|sz]|] eqn:Hsrc; try done.
    rewrite (os_Open_some _ _ _ (Dir sz)) by done.
    rewrite decide_False by lia. rewrite bind_get_files.
    cbn [files splitFile_loop]. unfold bind at 1.
    rewrite (file_Read_dir _ _ _ _ _ sz) by done. by eexists _, _.
Qed.

(** X5: an open source and a chunk size of 0 give an empty path list
    without error, whatever the source holds, after a single read of no
    bytes; a negative chunk size panics in [make] once the source is
    open.  No file is written in either case. *)
Theorem splitFile_degenerate_chunk_size (src outDir : string)
    (fs : gmap string node) (tr : list event) (data : list byte) :
  fs !! src = Some (File data) ->
  splitFile src 0 outDir (State fs tr)
  = (State fs (tr ++ [EvOpen src; EvRead src]), Ret (Ok []))
  /\ (forall F, (F < 0)%Z ->
        splitFile src F outDir (State fs tr)
        = (State fs (tr ++ [EvOpen src]), Panic "makeslice: len out of range")).
Proof.
  intros Hsrc. split.
  - unfold splitFile. unfold bind at 1.
    rewrite (os_Open_some _ _ _ (File data)) by done.
    rewrite decide_False by lia. rewrite bind_get_files.
    cbn [files splitFile_loop Z.to_nat replicate]. unfold bind at 1.
    unfold file_Read. run_prim. rewrite Hsrc. simpl.
    by rewrite <- app_assoc.
  - intros F HF. unfold splitFile. unfold bind at 1.
    rewrite (os_Open_some _ _ _ (File data)) by done.
    by rewrite decide_True by lia.
Qed.

Section SplitFilePrefix.
Variables (src outDir : string) (data : list byte) (F : nat).
Hypothesis F_pos : 0 < F.

(** The first [k - i] rounds of the loop, started at chunk [i]: when the
    names of these chunks are free, the loop goes on at chunk [k] with
    the chunks written. *)
Lemma splitFile_loop_prefix (d fuel i : nat) fs tr (buf : list byte) acc :
  i + d <= ceil_div (length data) F ->
  length buf = F ->
  fs !! src = Some (File data) ->
  (forall j, i <= j < i + d ->
     part_name outDir j <> src /\ is_dir (fs !! part_name outDir j) = false) ->
  exists fs' tr' buf',
    splitFile_loop (fuel + d) (Handle src ((i * F) `min` length data)) buf
      outDir i acc (State fs tr)
    = splitFile_loop fuel (Handle src (((i + d) * F) `min` length data)) buf'
        outDir (i + d) (acc ++ (part_name outDir <$> seq i d)) (State fs' tr')
    /\ length buf' = F
    /\ fs' !! src = Some (File data)
    /\ (forall j, i <= j < i + d ->
          fs' !! part_name outDir j = Some (File (chunk F data j)))
    /\ (forall p, (forall j, i <= j < i + d -> p <> part_name outDir j) ->
          fs' !! p = fs !! p).
Proof.
  revert i fs tr buf acc.
  induction d as [|d IH]; intros i fs tr buf acc Hk Hbuf Hsrc Hfree.
  { exists fs, tr, buf. rewrite !Nat.add_0_r. simpl. rewrite app_nil_r.
    split_and!; try done. intros j Hj. lia. }
  assert (i * F < length data) as HiF by (apply ceil_div_lt; [done | lia]).
  rewrite Nat.add_succ_r. simpl splitFile_loop.
  rewrite Nat.min_l by lia. unfold bind at 1.
  rewrite (file_Read_data _ _ _ _ _ data) by (done || lia). simpl.
  rewrite Hbuf. fold (chunk F data i).
  pose proof (length_chunk F data i) as Hlen.
  rewrite decide_False by lia.
  destruct (Hfree i ltac:(lia)) as [Hne Hnd].
  unfold bind at 1. rewrite os_WriteFile_ok by done.
  rewrite take_app_length.
  replace (i * F + length (chunk F data i))
    with ((S i * F) `min` length data) by (simpl; lia).
  match goal with
  | |- context [splitFile_loop (fuel + d) _ ?b _ _ ?a (State ?f ?t)] =>
      destruct (IH (S i) f t b a)
        as (fs' & tr' & buf' & Hrun & Hbuf' & Hsrc' & Hnew & Hold);
        [lia| | | |]
  end.
  { rewrite length_app, length_drop. lia. }
  { by rewrite lookup_insert_ne. }
  { intros j Hj. destruct (Hfree j ltac:(lia)) as [? ?]. split; [done|].
    rewrite lookup_insert_ne; [done|]. intros ?%part_name_inj. lia. }
  exists fs', tr', buf'. split_and!; try done.
  - rewrite Hrun, <- app_assoc.
    replace (i + S d) with (S i + d) by lia. done.
  - intros j Hj. destruct (decide (j = i)) as [->|].
    + rewrite Hold; [by rewrite lookup_insert_eq|].
      intros j' Hj' ?%part_name_inj. lia.
    + apply Hnew. lia.
  - intros p Hp. rewrite Hold; [|intros j' Hj'; apply Hp; lia].
    rewrite lookup_insert_ne; [done|]. intros <-. apply (Hp i); [lia | done].
Qed.

End SplitFilePrefix.

(** X6: when the first chunk name that cannot be written (it is a
    directory) is that of chunk [k], [splitFile] returns that write error
    instead of a path list, and the chunk files [0 .. k-1] written before
    stay on disk with their bytes; nothing else has changed. *)
Theorem splitFile_write_failure fs tr (src outDir : string)
    (data : list byte) (F k : nat) :
  0 < F ->
  fs !! src = Some (File data) ->
  k < ceil_div (length data) F ->
  names_free fs src outDir k ->
  is_dir (fs !! part_name outDir k) = true ->
  exists st',
    splitFile src (Z.of_nat F) outDir (State fs tr)
    = (st', Ret (Err (EISDIR (part_name outDir k))))
    /\ (forall j, j < k ->
          files st' !! part_name outDir j = Some (File (chunk F data j)))
    /\ (forall p, (forall j, j < k -> p <> part_name outDir j) ->
          files st' !! p = fs !! p).
Proof.
  intros HF Hsrc Hk Hfree Hdir. unfold splitFile. unfold bind at 1.
  rewrite (os_Open_some _ _ _ (File data)) by done.
  rewrite decide_False by lia. rewrite bind_get_files. cbn [files].
  rewrite Hsrc. cbn [node_size]. rewrite Nat2Z.id.
  pose proof (ceil_div_le (length data) F HF) as Hle.
  replace (S (length data)) with (S (length data - k) + k) by lia.
  destruct (splitFile_loop_prefix src outDir data F HF k (S (length data - k))
              0 fs (tr ++ [EvOpen src]) (replicate F x00) [])
    as (fs' & tr' & buf' & Hrun & Hbuf' & Hsrc' & Hnew & Hold).
  { simpl. lia. }
  { by rewrite length_replicate. }
  { done. }
  { intros j Hj. apply Hfree. lia. }
  cbn [Nat.mul Nat.min app] in Hrun. rewrite !Nat.add_0_l in Hrun.
  rewrite Hrun. clear Hrun.
  assert (k * F < length data) as HkF by (by apply ceil_div_lt).
  simpl splitFile_loop. rewrite Nat.min_l by lia. unfold bind at 1.
  rewrite (file_Read_data _ _ _ _ _ data) by (done || lia). simpl.
  rewrite Hbuf'. fold (chunk F data k).
  pose proof (length_chunk F data k) as Hlen.
  rewrite decide_False by lia.
  assert (fs' !! part_name outDir k = fs !! part_name outDir k) as Hsame.
  { apply Hold. intros j Hj ?%part_name_inj. lia. }
  destruct (fs !! part_name outDir k) as [[|sz]|] eqn:Hpk; try done.
  unfold os_WriteFile. run_prim. rewrite Hsame.
  eexists. split; [done|]. simpl. split.
  - intros j Hj. apply Hnew. lia.
  - intros p Hp. apply Hold. intros j Hj. apply Hp. lia.
Qed.

(** * mergeFiles: in general *)

(** X7: for regular input files other than the output, [mergeFiles]
    returns nil and the output holds the concatenation of the inputs in
    list order, whatever it held before; no other file changes. *)
Theorem mergeFiles_concat (fs : gmap string node) (tr : list event)
    (paths : list string) (out : string) (chunks : list (list byte)) :
  contents fs paths = Some chunks ->
  out ∉ paths ->
  is_dir (fs !! out) = false ->
  exists tr',
    mergeFiles paths out (State fs tr)
    = (State (<[out := File (concat chunks)]> fs) tr', Ret None).
Proof.
  intros Hcont%contents_Forall2 Hout Hnd. by apply mergeFiles_ok.
Qed.

Lemma file_Write_cases (f : handle) (data : list byte) (st : state) :
  exists st' n err off',
    file_Write f data st = (st', Ret (n, err, Handle (h_path f) off'))
    /\ (forall p, p <> h_path f -> files st' !! p = files st !! p)
    /\ (forall e, err = Some e -> io_error e = true).
Proof.
  destruct f as [p off], st as [fs tr]. unfold file_Write. run_prim.
  destruct (fs !! p) as [[old|sz]|].
  - eexists _, _, _, _. split; [done|]. split; [|done].
    intros q Hq. simpl. by rewrite lookup_insert_ne.
  - eexists _, _, _, _. split; [done|]. split; [done|]. by intros e [= <-].
  - eexists _, _, _, _. split; [done|]. split; [done|]. by intros e [= <-].
Qed.

Lemma io_Copy_cases (dst src : handle) (st : state) :
  exists st' n err off',
    io_Copy dst src st = (st', Ret (n, err, Handle (h_path dst) off'))
    /\ (forall p, p <> h_path dst -> files st' !! p = files st !! p)
    /\ (forall e, err = Some e -> io_error e = true).
Proof.
  unfold io_Copy. unfold bind at 1, emit at 1. rewrite bind_get_files.
  cbn [files]. destruct (files st !! h_path src) as [[data|sz]|].
  - destruct (file_Write_cases dst (drop (h_off src) data)
                (State (files st) (trace st ++ [EvRead (h_path src)])))
      as (st' & n & err & off' & -> & Hframe & Herr).
    by eexists _, _, _, _.
  - destruct dst as [p off]. eexists _, _, _, _. split; [done|].
    split; [done|]. by intros e [= <-].
  - destruct dst as [p off]. eexists _, _, _, _. split; [done|].
    split; [done|]. by intros e [= <-].
Qed.

Lemma mergeFiles_loop_frame (out : string) (paths : list string)
    (off : nat) (st : state) :
  exists st' r,
    mergeFiles_loop (Handle out off) paths st = (st', Ret r)
    /\ (forall p, p <> out -> files st' !! p = files st !! p)
    /\ (forall e, r = Some e -> io_error e = true).
Proof.
  revert off st. induction paths as [|path rest IH]; intros off st; simpl.
  { by eexists _, _. }
  unfold bind at 1. destruct st as [fs tr].
  destruct (fs !! path) as [nd|] eqn:Hp.
  2:{ rewrite os_Open_none by done. eexists _, _. split; [done|].
      split; [done|]. by intros e [= <-]. }
  rewrite (os_Open_some _ _ _ nd) by done. unfold bind at 1.
  destruct (io_Copy_cases (Handle out off) (Handle path 0)
              (State fs (tr ++ [EvOpen path])))
    as (st1 & n & err & off' & -> & Hframe & Herr).
  simpl in *. destruct err as [e|].
  { eexists _, _. split; [done|]. split; [done|].
    intros e' [= <-]. simpl. by apply Herr. }
  destruct (IH off' st1) as (st' & r & -> & Hframe' & Herr').
  exists st', r. split; [done|]. split; [|done].
  intros p Hp'. by rewrite Hframe', Hframe.
Qed.

(** X8: when the output is not one of the inputs, [mergeFiles] returns,
    with nil or with an error; however it ends, every path other than the
    output is as before, and an error it returns is a file-system
    error. *)
Theorem mergeFiles_frame (paths : list string) (out : string) (st : state) :
  out ∉ paths ->
  exists st' r,
    mergeFiles paths out st = (st', Ret r)
    /\ (forall p, p <> out -> files st' !! p = files st !! p)
    /\ (forall e, r = Some e -> io_error e = true).
Proof.
  intros _.
  unfold mergeFiles. unfold bind at 1. destruct st as [fs tr].
  destruct (is_dir (fs !! out)) eqn:Hd.
  - destruct (fs !! out) as [[|sz]|] eqn:Ho; try done.
    rewrite (os_Create_dir _ _ _ sz) by done. eexists _, _.
    split; [done|]. split; [done|]. by intros e [= <-].
  - rewrite os_Create_ok by done.
    destruct (mergeFiles_loop_frame out paths 0
                (State (<[out := File []]> fs) (tr ++ [EvCreate out])))
      as (st' & r & -> & Hframe & Herr).
    exists st', r. split; [done|]. split; [|done].
    intros p Hp. rewrite Hframe by done. simpl. by rewrite lookup_insert_ne.
Qed.

(** * filesEqual: symmetry *)

(** X9: the verdict of [filesEqual] does not depend on the order of its
    two arguments. *)
Theorem filesEqual_symmetric (fs : gmap string node) (tr1 tr2 : list event)
    (f1 f2 : string) :
  (filesEqual f1 f2 (State fs tr1)).2 = (filesEqual f2 f1 (State fs tr2)).2.
Proof.
  destruct (filesEqual_spec fs f1 f2 tr1)
    as (tr1' & b1 & -> & Hopen1 & Hdir1 & Hsize1 & Hreg1).
  destruct (filesEqual_spec fs f2 f1 tr2)
    as (tr2' & b2 & -> & Hopen2 & Hdir2 & Hsize2 & Hreg2).
  simpl. f_equal.
  destruct (fs !! f1) as [n1|] eqn:H1; [|by rewrite Hopen1, Hopen2 by eauto].
  destruct (fs !! f2) as [n2|] eqn:H2; [|by rewrite Hopen1, Hopen2 by eauto].
  destruct (decide (node_size (Some n1) = node_size (Some n2))) as [Hsz|Hsz].
  2:{ destruct Hsize1 as [-> _]; [by eexists | by eexists | done|].
      destruct Hsize2 as [-> _]; [by eexists | by eexists | done|]. done. }
  destruct n1 as [d1|]; [|by rewrite Hdir1, Hdir2 by eauto].
  destruct n2 as [d2|]; [|by rewrite Hdir1, Hdir2 by eauto].
  specialize (Hreg1 d1 d2 eq_refl eq_refl Hsz).
  specialize (Hreg2 d2 d1 eq_refl eq_refl (eq_sym Hsz)).
  destruct b1, b2; try done.
  - destruct Hreg1 as [Hd _]. specialize (Hd eq_refl). subst d2.
    destruct Hreg2 as [_ Hd]. by specialize (Hd eq_refl).
  - destruct Hreg2 as [Hd _]. specialize (Hd eq_refl). subst d2.
    destruct Hreg1 as [_ Hd]. by specialize (Hd eq_refl).
Qed.

(** X10: compared with itself, a regular file is equal; a directory or
    a path that names nothing is not. *)
Theorem filesEqual_same_file (fs : gmap string node) (tr : list event)
    (f : string) :
  (filesEqual f f (State fs tr)).2
  = Ret (match fs !! f with Some (File _) => true | _ => false end).
Proof.
  destruct (filesEqual_spec fs f f tr)
    as (tr' & b & -> & Hopen & Hdir & _ & Hreg).
  simpl. f_equal. destruct (fs !! f) as [[d|sz]|] eqn:Hf.
  - by apply (Hreg d d).
  - by apply Hdir; left.
  - by apply Hopen; left.
Qed.

(** * Names of the artifacts in the work directory *)


(** X11: the names that main gives to its artifacts never collide:
    chunk names and download names are injective in the index, and
    chunks, downloads, the merged file and the source file have pairwise
    different names. *)
Theorem artifact_names_distinct (i j : nat) :
  (part_name workDir i = part_name workDir j -> i = j)
  /\ (downloaded_name i = downloaded_name j -> i = j)
  /\ part_name workDir i <> downloaded_name j
  /\ part_name workDir i <> mergedPath
  /\ part_name workDir i <> largeFileName
  /\ downloaded_name j <> mergedPath
  /\ downloaded_name j <> largeFileName
  /\ mergedPath <> largeFileName.
Proof.
  split_and!.
  - apply part_name_inj.
  - apply downloaded_name_inj.
  - unfold part_name, downloaded_name.
    intros H%filepath_Join_inj; [|done..]. simpl in H. done.
  - unfold part_name, mergedPath.
    intros H%filepath_Join_inj; [|done..]. simpl in H. done.
  - unfold part_name, largeFileName.
    intros H%filepath_Join_inj; [|done..]. simpl in H. done.
  - intros H. by apply (mergedPath_not_downloaded j).
  - unfold downloaded_name, largeFileName.
    intros H%filepath_Join_inj; [|done..]. simpl in H. done.
  - done.
Qed.

(** * main: what the download loop and the merge leave on disk *)


(** X12: the download loop returns, whatever the store answers; the
    paths it returns are those of the rounds whose download succeeded, in
    order, numbered by the position of the root hash; each holds the
    bytes the store returned, and no path other than a download name
    changes. *)
Theorem download_failures_skipped (env : sdk) (fs : gmap string node)
    (tr : list event) (fragments rootHashes : list string) :
  length rootHashes <= length fragments ->
  (forall j, j < length rootHashes ->
             is_dir (fs !! downloaded_name j) = false) ->
  exists st' downloadedFiles,
    download_loop env fragments 0 rootHashes [] (State fs tr)
    = (st', Ret downloadedFiles)
    /\ downloadedFiles
       = (fun jd => downloaded_name jd.1) <$> fetched env 0 rootHashes
    /\ contents (files st') downloadedFiles
       = Some (snd <$> fetched env 0 rootHashes)
    /\ (forall p, (forall j, j < length rootHashes -> p <> downloaded_name j) ->
          files st' !! p = fs !! p).
Proof.
  intros Hlen Hfree.
  destruct (download_loop_files env fragments rootHashes 0 [] fs tr)
    as (st' & Hrun & Hnew & Hold); [simpl; lia | intros j Hj; apply Hfree; lia|].
  exists st', ((fun jd => downloaded_name jd.1) <$> fetched env 0 rootHashes).
  split_and!; try done.
  - apply contents_Forall2, Forall2_fmap, Forall_Forall2_diag, Forall_forall.
    intros [j d] Hin. by apply Hnew.
  - intros p Hp. apply Hold. intros j d Hin%fetched_index.
    apply Hp. simpl in Hin. lia.
Qed.

(** X13: when node selection and the downloader succeed, the pipeline
    returns and the merged file holds the concatenation, in order, of the
    bytes downloaded for the uploaded roots; with no successful download
    no file changes at all.  Only the merged file and download names can
    change: the source and the chunks are as before. *)
Theorem pipeline_merged_file (env : sdk) (fs : gmap string node)
    (tr : list event) (large : string) (fragments : list string)
    (nodes : SelectedNodes) :
  (try_in_order env strategies).2 = Some nodes ->
  Trusted nodes ++ Discovered nodes <> [] ->
  transfer_NewDownloader env (Trusted nodes ++ Discovered nodes) = None ->
  (forall j, j < length (uploaded env 0 fragments) ->
             is_dir (fs !! downloaded_name j) = false) ->
  is_dir (fs !! mergedPath) = false ->
  let got := fetched env 0 (uploaded env 0 fragments) in
  exists st',
    pipeline env large fragments (State fs tr) = (st', Ret tt)
    /\ (got <> [] ->
        files st' !! mergedPath = Some (File (concat (snd <$> got))))
    /\ (got = [] -> files st' = fs)
    /\ (forall p, p <> mergedPath -> (forall j, p <> downloaded_name j) ->
          files st' !! p = fs !! p).
Proof.
  intros Hsel Hnodes Hdl Hfree Hmerged got.
  destruct (pipeline_merge_result env fs tr large fragments nodes
              Hsel Hnodes Hdl Hfree Hmerged)
    as (st' & Hrun & Hsome & Hnone & Hframe).
  exists st'. split_and!; [exact Hrun | exact Hsome | exact Hnone | exact Hframe].
Qed.

(** * main: how a run can end *)

Lemma returns_ends {A} (m : M A) : returns m -> ends m.
Proof. intros H st. destruct (H st) as (st' & a & ->). exact I. Qed.

Lemma ends_bind {A B} (m : M A) (k : A -> M B) :
  ends m -> (forall a, ends (k a)) -> ends (bind m k).
Proof.
  intros Hm Hk st. specialize (Hm st). unfold bind.
  destruct (m st) as [st1 [a| | |]]; simpl in *; try done. apply Hk.
Qed.

Lemma ends_log_Fatal {A} : ends (@log_Fatal A).
Proof. by intros st. Qed.

Lemma ends_with_defer {A} (cleanup : M unit) (body : M A) :
  returns cleanup -> ends body -> ends (with_defer cleanup body).
Proof.
  intros Hc Hb st. specialize (Hb st). unfold with_defer.
  destruct (body st) as [st1 [a| | |]]; simpl in *; try done.
  by destruct (Hc st1) as (st2 & u & ->).
Qed.

Lemma returns_os_MkdirAll p : returns (os_MkdirAll p).
Proof. unfold os_MkdirAll. repeat returns_step. Qed.

Lemma returns_os_RemoveAll p : returns (os_RemoveAll p).
Proof. unfold os_RemoveAll. repeat returns_step. Qed.

Lemma returns_generateRandomFile rand p size :
  returns (generateRandomFile rand p size).
Proof.
  unfold generateRandomFile, io_CopyN. repeat returns_step.
Qed.

Lemma returns_splitFile src outDir :
  returns (splitFile src FragmentSize outDir).
Proof.
  intros [fs tr]. unfold splitFile. unfold bind at 1.
  destruct (fs !! src) as [nd|] eqn:Hsrc.
  2:{ rewrite os_Open_none by done. by eexists _, _. }
  rewrite (os_Open_some _ _ _ nd) by done.
  rewrite decide_False by (unfold FragmentSize; lia).
  rewrite bind_get_files. cbn [files].
  apply splitFile_loop_returns. unfold remaining. simpl. rewrite Hsrc.
  destruct nd; simpl; lia.
Qed.

Section Ends.
Variable env : sdk.

Lemma ends_select_nodes : ends (select_nodes env).
Proof.
  intros [fs tr]. rewrite select_nodes_try_in_order.
  by destruct (try_in_order env strategies).2.
Qed.

Lemma ends_pipeline large fragments : ends (pipeline env large fragments).
Proof.
  unfold pipeline. apply ends_bind; [apply ends_select_nodes|].
  intros nodes. case_decide; [apply ends_log_Fatal|].
  intros [fs tr]. unfold bind at 1. rewrite upload_loop_spec.
  unfold bind at 1. rewrite NewDownloader_eq.
  destruct (transfer_NewDownloader env _); [done|].
  unfold bind at 1.
  edestruct (download_loop_spec env fragments (uploaded env 0 fragments) 0 [])
    as (st1 & dl & -> & _).
  { pose proof (length_uploaded env 0 fragments). simpl. lia. }
  by apply returns_ends, returns_merge_stage.
Qed.

Lemma ends_run_in_workDir :
  ends (run_in_workDir env TotalSize FragmentSize).
Proof.
  unfold run_in_workDir.
  apply ends_bind; [apply returns_ends, returns_os_MkdirAll|]. intros _.
  apply ends_with_defer; [apply returns_os_RemoveAll|].
  apply ends_bind; [apply returns_ends, returns_generateRandomFile|].
  intros [e|]; [apply ends_log_Fatal|].
  apply ends_bind; [apply returns_ends, returns_splitFile|].
  intros [fragments|e]; [apply ends_pipeline | apply ends_log_Fatal].
Qed.

End Ends.

(** X14: whatever the environment answers and whatever the file system
    holds, main never panics (the index [fragments[i]] of the download
    loop is always in range) and none of its loops runs without end: it
    returns, or exits with code 1. *)
Theorem main_ends (env : sdk) (st : state) :
  exists st', main env st = (st', Ret tt) \/ main env st = (st', Exit 1).
Proof.
  assert (ends (main env)) as Hends.
  { unfold main, run.
    destruct (blockchain_NewWeb3 env); [apply ends_log_Fatal|].
    apply ends_with_defer; [apply returns_emit|].
    destruct (indexer_NewClient env); [apply ends_log_Fatal|].
    apply ends_run_in_workDir. }
  specialize (Hends st).
  destruct (main env st) as [st' [[]|code| |]]; simpl in Hends; try done.
  - exists st'. by left.
  - exists st'. right. by subst.
Qed.

Lemma with_defer_ret_inv {A} (cleanup : M unit) (body : M A) st st' a :
  with_defer cleanup body st = (st', Ret a) ->
  exists st1, body st = (st1, Ret a) /\ cleanup st1 = (st', Ret tt).
Proof.
  unfold with_defer. destruct (body st) as [st1 [a1| | |]]; try done.
  destruct (cleanup st1) as [st2 [[]| | |]] eqn:Hc; try done.
  intros [= <- <-]. by exists st1.
Qed.

Lemma bind_ret_inv {A B} (m : M A) (k : A -> M B) st st' b :
  bind m k st = (st', Ret b) ->
  exists st1 a, m st = (st1, Ret a) /\ k a st1 = (st', Ret b).
Proof.
  unfold bind. destruct (m st) as [st1 [a| | |]]; try done.
  intros H. by exists st1, a.
Qed.

(** X15: when a run returns, nothing at or below the work directory is
    left, and the last two calls were [os.RemoveAll(workDir)] and the
    close of the web3 client. *)
Theorem run_return_cleans (env : sdk) (totalSize fragmentSize : Z)
    (st st' : state) :
  run env totalSize fragmentSize st = (st', Ret tt) ->
  (forall p, under workDir p = true -> files st' !! p = None)
  /\ exists tr, trace st' = tr ++ [EvRemoveAll workDir; EvCloseWeb3].
Proof.
  unfold run. destruct (blockchain_NewWeb3 env); [done|].
  intros (st1 & Hbody & Hclose)%with_defer_ret_inv.
  destruct (indexer_NewClient env); [done|].
  unfold run_in_workDir in Hbody.
  apply bind_ret_inv in Hbody as (st0 & _ & _ & Hdefer).
  apply with_defer_ret_inv in Hdefer as (st2 & _ & Hremove).
  unfold os_RemoveAll in Hremove. unfold emit in Hclose.
  revert Hremove. run_prim. intros [= <-].
  injection Hclose as <-. simpl. split.
  - intros p Hp. apply map_lookup_filter_None. right. intros nd _. simpl.
    by rewrite Hp.
  - exists (trace st2). by rewrite <- app_assoc.
Qed.

(** ** The deferred calls are made by nothing but the defers *)

Create HintDb work.

#[export] Hint Resolve emits_ret emits_get_files emits_put_files : work.

Ltac work_step :=
  first [ solve [eauto with work]
        | apply emits_bind; [|intros ?]
        | apply emits_emit; exact I
        | apply emits_stop; done
        | match goal with
          | |- emits _ (match ?x with _ => _ end) => destruct x
          | |- emits _ (if ?x then _ else _) => destruct x
          end ].

Lemma work_os_Open p : emits work_event (os_Open p).
Proof. unfold os_Open. repeat work_step. Qed.

Lemma work_os_Create p : emits work_event (os_Create p).
Proof. unfold os_Create. repeat work_step. Qed.

Lemma work_os_WriteFile p data : emits work_event (os_WriteFile p data).
Proof. unfold os_WriteFile. repeat work_step. Qed.

Lemma work_os_MkdirAll p : emits work_event (os_MkdirAll p).
Proof. unfold os_MkdirAll. repeat work_step. Qed.

Lemma work_file_Size f : emits work_event (file_Size f).
Proof. unfold file_Size. repeat work_step. Qed.

Lemma work_file_Read f buf : emits work_event (file_Read f buf).
Proof. unfold file_Read. repeat work_step. Qed.

Lemma work_file_Write f data : emits work_event (file_Write f data).
Proof. unfold file_Write. repeat work_step. Qed.

#[export] Hint Resolve work_os_Open work_os_Create work_os_WriteFile
  work_os_MkdirAll work_file_Size work_file_Read work_file_Write : work.

Lemma work_io_Copy dst src : emits work_event (io_Copy dst src).
Proof. unfold io_Copy. repeat work_step. Qed.

Lemma work_io_CopyN dst src n : emits work_event (io_CopyN dst src n).
Proof. unfold io_CopyN. repeat work_step. Qed.

#[export] Hint Resolve work_io_Copy work_io_CopyN : work.

Lemma work_generateRandomFile rand p size :
  emits work_event (generateRandomFile rand p size).
Proof. unfold generateRandomFile. repeat work_step. Qed.

Lemma work_splitFile_loop fuel f buf outDir i acc :
  emits work_event (splitFile_loop fuel f buf outDir i acc).
Proof.
  revert f buf i acc. induction fuel as [|fuel IH]; intros f buf i acc; simpl.
  - by apply emits_stop.
  - apply emits_bind; [eauto with work|]. intros [[[n e] b] h].
    repeat work_step.
Qed.

Lemma work_splitFile src F outDir : emits work_event (splitFile src F outDir).
Proof. unfold splitFile. repeat work_step; apply work_splitFile_loop. Qed.

Lemma work_filesEqual_loop fuel f1 f2 buf1 buf2 :
  emits work_event (filesEqual_loop fuel f1 f2 buf1 buf2).
Proof.
  revert f1 f2 buf1 buf2.
  induction fuel as [|fuel IH]; intros f1 f2 buf1 buf2; simpl.
  - by apply emits_stop.
  - apply emits_bind; [eauto with work|]. intros [[[n1 e1] b1] h1].
    apply emits_bind; [eauto with work|]. intros [[[n2 e2] b2] h2].
    repeat work_step.
Qed.

Lemma work_filesEqual f1 f2 : emits work_event (filesEqual f1 f2).
Proof. unfold filesEqual. repeat work_step; apply work_filesEqual_loop. Qed.

Lemma work_mergeFiles_loop outFile paths :
  emits work_event (mergeFiles_loop outFile paths).
Proof.
  revert outFile. induction paths as [|p paths IH]; intros outFile; simpl.
  - eauto with work.
  - repeat work_step.
Qed.

Lemma work_mergeFiles paths out : emits work_event (mergeFiles paths out).
Proof. unfold mergeFiles. repeat work_step; apply work_mergeFiles_loop. Qed.

#[export] Hint Resolve work_generateRandomFile work_splitFile
  work_filesEqual work_mergeFiles : work.

Section Work.
Variable env : sdk.

Lemma work_select_nodes : emits work_event (select_nodes env).
Proof. unfold select_nodes, SelectNodes. repeat work_step. Qed.

Lemma work_upload_loop i fragments rootHashes :
  emits work_event (upload_loop env i fragments rootHashes).
Proof.
  revert i rootHashes.
  induction fragments as [|p rest IH]; intros i rootHashes; simpl.
  - eauto with work.
  - unfold NewUploader, UploadFile. repeat work_step.
Qed.

Lemma work_download_loop fragments i rootHashes downloadedFiles :
  emits work_event (download_loop env fragments i rootHashes downloadedFiles).
Proof.
  revert i downloadedFiles.
  induction rootHashes as [|root rest IH]; intros i downloadedFiles; simpl.
  - eauto with work.
  - unfold Download. repeat work_step.
Qed.

Lemma work_merge_stage large dl : emits work_event (merge_stage large dl).
Proof. unfold merge_stage. repeat work_step. Qed.

Lemma work_pipeline large fragments :
  emits work_event (pipeline env large fragments).
Proof.
  unfold pipeline, NewDownloader.
  apply emits_bind; [apply work_select_nodes|]. intros nodes.
  case_decide; [by apply emits_stop|].
  apply emits_bind; [apply work_upload_loop|]. intros rootHashes.
  apply emits_bind; [repeat work_step|]. intros [e|]; [by apply emits_stop|].
  apply emits_bind; [apply work_download_loop | intros dl; apply work_merge_stage].
Qed.

End Work.

Lemma generateRandomFile_steps (rand : list byte) (p : string) (size : Z)
    (fs : gmap string node) (tr : list event) :
  is_dir (fs !! p) = false ->
  Z.to_nat size <= length rand ->
  exists tr',
    generateRandomFile rand p size (State fs tr)
    = (State (<[p := File (take (Z.to_nat size) rand)]> fs) tr', Ret None).
Proof.
  intros Hp Hlen. unfold generateRandomFile. unfold bind at 1.
  rewrite os_Create_ok by done. unfold io_CopyN.
  unfold bind at 1, bind at 1.
  rewrite (file_Write_append _ _ _ [] (take (Z.to_nat size) rand))
    by apply lookup_insert_eq.
  cbn [length app]. rewrite decide_False by (rewrite length_take; lia).
  unfold ret. rewrite insert_insert_eq. by eexists.
Qed.

Lemma with_defer_exit_inv {A} (cleanup : M unit) (body : M A) st st' code :
  returns cleanup ->
  with_defer cleanup body st = (st', Exit code) ->
  body st = (st', Exit code).
Proof.
  intros Hc. unfold with_defer. destruct (body st) as [st1 [a| | |]]; try done.
  by destruct (Hc st1) as (st2 & u & ->).
Qed.

(** X16: when a run ends through [os.Exit], neither deferred call has
    been made: no [os.RemoveAll] and no close of the web3 client occur in
    what the run added to the trace. *)
Theorem run_exit_skips_defers (env : sdk) (totalSize fragmentSize : Z)
    (st st' : state) (code : Z) :
  run env totalSize fragmentSize st = (st', Exit code) ->
  exists evs, trace st' = trace st ++ evs /\ Forall work_event evs.
Proof.
  unfold run. destruct (blockchain_NewWeb3 env).
  { intros [= <- <-]. exists []. by rewrite app_nil_r. }
  intros Hbody%with_defer_exit_inv; [|apply returns_emit].
  destruct (indexer_NewClient env).
  { injection Hbody as <- <-. exists []. by rewrite app_nil_r. }
  unfold run_in_workDir in Hbody. unfold bind at 1 in Hbody.
  destruct (returns_os_MkdirAll workDir st) as (st0 & u & Hmk).
  destruct (work_os_MkdirAll workDir st) as (evs0 & Htr0 & Hev0).
  rewrite Hmk in Hbody, Htr0. simpl in Htr0.
  apply with_defer_exit_inv in Hbody; [|apply returns_os_RemoveAll].
  match type of Hbody with
  | ?body st0 = _ => assert (emits work_event body) as Hwork
  end.
  { apply emits_bind; [apply work_generateRandomFile|].
    intros [e|]; [by apply emits_stop|].
    apply emits_bind; [apply work_splitFile|].
    intros [fragments|e]; [apply work_pipeline | by apply emits_stop]. }
  destruct (Hwork st0) as (evs1 & Htr1 & Hev1).
  rewrite Hbody in Htr1. simpl in Htr1.
  exists (evs0 ++ evs1). rewrite Htr1, Htr0, app_assoc. split; [done|].
  by apply Forall_app.
Qed.

(** * generateRandomFile, then splitFile *)

(** X17: [generateRandomFile] followed by [splitFile] on the same path
    gives [ceil(size/F)] chunk files that hold the pieces of the first
    [size] entropy bytes, and leaves the generated file intact. *)
Theorem generate_then_split (rand : list byte) (p outDir : string)
    (totalSize : Z) (F : nat) (fs : gmap string node) (tr : list event) :
  0 < F ->
  Z.to_nat totalSize <= length rand ->
  is_dir (fs !! p) = false ->
  names_free fs p outDir (ceil_div (Z.to_nat totalSize) F) ->
  exists st1 st2 paths,
    generateRandomFile rand p totalSize (State fs tr) = (st1, Ret None)
    /\ splitFile p (Z.of_nat F) outDir st1 = (st2, Ret (Ok paths))
    /\ length paths = ceil_div (Z.to_nat totalSize) F
    /\ contents (files st2) paths
       = Some (chunks_of F (take (Z.to_nat totalSize) rand))
    /\ files st2 !! p = Some (File (take (Z.to_nat totalSize) rand)).
Proof.
  intros HF Hlen Hp Hfree.
  destruct (generateRandomFile_steps rand p totalSize fs tr Hp Hlen) as [tr1 Hgen].
  assert (length (take (Z.to_nat totalSize) rand) = Z.to_nat totalSize) as HT
    by (rewrite length_take; lia).
  edestruct (splitFile_spec (<[p := File (take (Z.to_nat totalSize) rand)]> fs)
               tr1 p outDir (take (Z.to_nat totalSize) rand) F HF)
    as (st2 & Hsplit & Hcont & Hold).
  { apply lookup_insert_eq. }
  { rewrite HT. intros j Hj. destruct (Hfree j Hj) as [Hne Hd].
    split; [done|]. by rewrite lookup_insert_ne. }
  rewrite HT in *.
  eexists _, st2, _. split; [exact Hgen|]. split; [exact Hsplit|].
  split; [by rewrite length_fmap, length_seq|]. split; [done|].
  rewrite Hold; [apply lookup_insert_eq|].
  intros j Hj Heq. by destruct (Hfree j Hj).
Qed.

(** * main: the fatal paths after the split *)

(** X18: the pipeline exits with code 1, touching no file, in three cases:
    all four selections fail, or the selected node list is empty (in both
    nothing has been uploaded), or the downloader cannot be created (then
    every upload has already been attempted, and no download is). *)
Theorem pipeline_fatal_paths (env : sdk) (fs : gmap string node)
    (tr : list event) (large : string) (fragments : list string) :
  ((try_in_order env strategies).2 = None ->
     pipeline env large fragments (State fs tr)
     = (State fs (tr ++ (try_in_order env strategies).1), Exit 1))
  /\ (forall nodes,
        (try_in_order env strategies).2 = Some nodes ->
        Trusted nodes ++ Discovered nodes = [] ->
        pipeline env large fragments (State fs tr)
        = (State fs (tr ++ (try_in_order env strategies).1), Exit 1))
  /\ (forall nodes e,
        (try_in_order env strategies).2 = Some nodes ->
        Trusted nodes ++ Discovered nodes <> [] ->
        transfer_NewDownloader env (Trusted nodes ++ Discovered nodes)
        = Some e ->
        pipeline env large fragments (State fs tr)
        = (State fs (((tr ++ (try_in_order env strategies).1)
                      ++ upload_events env 0 fragments)
                     ++ [EvNewDownloader]), Exit 1)).
Proof.
  split_and!.
  - intros Hsel. unfold pipeline. unfold bind at 1.
    by rewrite select_nodes_try_in_order, Hsel.
  - intros nodes Hsel Hnone. unfold pipeline. unfold bind at 1.
    rewrite select_nodes_try_in_order, Hsel, Hnone. done.
  - intros nodes e Hsel Hnodes Hdl. unfold pipeline. unfold bind at 1.
    rewrite select_nodes_try_in_order, Hsel.
    rewrite decide_False by (by destruct (Trusted nodes ++ Discovered nodes)).
    unfold bind at 1. rewrite upload_loop_spec.
    unfold bind at 1. by rewrite NewDownloader_eq, Hdl.
Qed.

(** * The further theorems at concrete inputs *)

Lemma generateRandomFile_ok_witness :
  generateRandomFile five "f" 3 (State ∅ [])
  = (State {["f" := File [x01; x02; x03]]} [EvCreate "f"; EvWrite "f"],
     Ret None).
Proof.
  apply (generateRandomFile_ok five "f" 3 ∅ []); [reflexivity | simpl; lia].
Defined.

Lemma splitFile_frame_witness :
  files (splitFile "src" 2 "out" (State fs_five [])).1 !! "src"
  = Some (File five).
Proof.
  destruct (splitFile_frame "src" "out" 2 (State fs_five [])
              (splitFile "src" 2 "out" (State fs_five [])).1
              (splitFile "src" 2 "out" (State fs_five [])).2
              (surjective_pairing _)) as [Hframe _].
  rewrite Hframe; [reflexivity|]. intros j. by vm_compute.
Defined.

Lemma splitFile_unreadable_source_witness :
  exists tr' e,
    splitFile "nowhere" 2 "out" (State fs_five [])
    = (State fs_five tr', Ret (Err e))
    /\ io_error e = true.
Proof.
  apply (splitFile_unreadable_source "nowhere" "out" 2 fs_five []);
    [lia | by left].
Defined.

Lemma splitFile_write_failure_witness :
  exists st',
    splitFile "src" 2 "out" (State fs_blocked [])
    = (st', Ret (Err (EISDIR "out/part_1.bin")))
    /\ files st' !! "out/part_0.bin" = Some (File [x01; x02]).
Proof.
  destruct (splitFile_write_failure fs_blocked [] "src" "out" five 2 1)
    as (st' & Hrun & Hnew & _).
  - lia.
  - reflexivity.
  - vm_compute. lia.
  - intros j Hj. destruct j as [|j]; [by vm_compute | lia].
  - reflexivity.
  - exists st'. split; [exact Hrun|]. apply (Hnew 0). lia.
Defined.

Lemma mergeFiles_frame_witness :
  exists st' r,
    mergeFiles ["src"; "missing"] "merged" (State fs_five []) = (st', Ret r)
    /\ files st' !! "src" = Some (File five).
Proof.
  destruct (mergeFiles_frame ["src"; "missing"] "merged" (State fs_five []))
    as (st' & r & Hrun & Hframe & _).
  - intros Hin. repeat (apply elem_of_cons in Hin as [Hin|Hin]; [done|]).
    by apply elem_of_nil in Hin.
  - exists st', r. split; [exact Hrun|]. by rewrite Hframe.
Defined.

Lemma mergeFiles_concat_witness :
  exists tr',
    mergeFiles ["src"; "src"] "twice" (State fs_five [])
    = (State (<["twice" := File (five ++ five)]> fs_five) tr', Ret None).
Proof.
  destruct (mergeFiles_concat fs_five [] ["src"; "src"] "twice" [five; five])
    as [tr' Hrun].
  - reflexivity.
  - intros Hin. repeat (apply elem_of_cons in Hin as [Hin|Hin]; [done|]).
    by apply elem_of_nil in Hin.
  - reflexivity.
  - by exists tr'.
Defined.

Lemma download_failures_skipped_witness :
  exists st' downloadedFiles,
    download_loop (mock_sdk true None) (part_name workDir <$> seq 0 4) 0
      ["root0"; "root1"] [] (State ∅ []) = (st', Ret downloadedFiles)
    /\ downloadedFiles = [downloaded_name 0; downloaded_name 1].
Proof.
  destruct (download_failures_skipped (mock_sdk true None) ∅ []
              (part_name workDir <$> seq 0 4) ["root0"; "root1"])
    as (st' & dl & Hrun & Hdl & _).
  - simpl. lia.
  - intros j _. reflexivity.
  - exists st', dl. split; [exact Hrun | exact Hdl].
Defined.

Lemma pipeline_merged_file_witness :
  exists st',
    pipeline (mock_sdk true None) "src" ["a"; "b"] (State ∅ []) = (st', Ret tt)
    /\ files st' !! mergedPath
       = Some (File (replicate 256 x2a ++ replicate 256 x2a)).
Proof.
  destruct (pipeline_merged_file (mock_sdk true None) ∅ [] "src" ["a"; "b"]
              mock_nodes eq_refl ltac:(done) eq_refl)
    as (st' & Hrun & Hmerged & _).
  - intros j _. reflexivity.
  - reflexivity.
  - exists st'. split; [exact Hrun|].
    rewrite Hmerged; [by vm_compute | by vm_compute].
Defined.

Lemma run_return_cleans_witness :
  files (main (mock_sdk true None) (State ∅ [])).1 !! largeFileName = None.
Proof.
  apply (run_return_cleans (mock_sdk true None) TotalSize FragmentSize
           (State ∅ []) (main (mock_sdk true None) (State ∅ [])).1).
  - by vm_compute.
  - by vm_compute.
Defined.

Lemma run_exit_skips_defers_witness :
  exists evs,
    trace (main (mock_sdk false None) (State ∅ [])).1 = [] ++ evs
    /\ Forall work_event evs.
Proof.
  apply (run_exit_skips_defers (mock_sdk false None) TotalSize FragmentSize
           (State ∅ []) (main (mock_sdk false None) (State ∅ [])).1 1).
  by vm_compute.
Defined.

Lemma generate_then_split_witness :
  exists st1 st2 paths,
    generateRandomFile (replicate 1024 x2a) largeFileName TotalSize
      (State ∅ []) = (st1, Ret None)
    /\ splitFile largeFileName FragmentSize workDir st1 = (st2, Ret (Ok paths))
    /\ length paths = 4.
Proof.
  destruct (generate_then_split (replicate 1024 x2a) largeFileName workDir
              TotalSize 256 ∅ [])
    as (st1 & st2 & paths & Hgen & Hsplit & Hlen & _).
  - lia.
  - by vm_compute.
  - reflexivity.
  - intros j _. split; [|reflexivity].
    unfold part_name, largeFileName.
    intros H%filepath_Join_inj; [|done..]. simpl in H. done.
  - exists st1, st2, paths. split; [exact Hgen|]. split; [exact Hsplit|].
    exact Hlen.
Defined.

Lemma splitFile_degenerate_chunk_size_witness :
  splitFile "src" 0 "out" (State fs_five [])
  = (State fs_five [EvOpen "src"; EvRead "src"], Ret (Ok [])).
Proof.
  apply (splitFile_degenerate_chunk_size "src" "out" fs_five [] five).
  reflexivity.
Defined.
